(** * TamScraper: LaunchBox export to gamelist converter

    A shallow embedding of [TamScraper.py].  The script walks game
    folders, reads a LaunchBox metadata XML, pairs ROM files with their
    records, looks up artwork by file name, re-encodes it with Pillow and
    writes a [gamelist.xml].

    The embedding keeps the script's functions and names.  Effects (the
    file tree, standard output, exceptions) are threaded through a small
    state-and-exception monad.  Library calls ([os.path], [os.walk],
    [re.sub], [xml.etree], Pillow) are rendered by what they compute on
    the data the script hands them.  A character of a Python string is an
    [ascii] here, so lengths and slices count characters as Python does.
    The resampling filter only decides pixel values and is left out. *)

From Stdlib Require Import ZArith QArith Qround Qabs Ascii String List Lia.
From Stdlib Require Import DecimalString Sorted Permutation.
From stdpp Require Import gmap strings list.

Local Open Scope string_scope.
Local Open Scope list_scope.
Local Set Warnings "-register-all".

(** ** Python strings *)

Module Str.

Definition chars (s : string) : list ascii := list_ascii_of_string s.
Definition of_chars (l : list ascii) : string := string_of_list_ascii l.

(** [s.lower()] on the ASCII range.  On other code points Python's
    lowering never yields one of the extensions the script compares
    with, so membership tests on the result agree. *)
Definition lower_ascii (c : ascii) : ascii :=
  let n := N_of_ascii c in
  if ((65 <=? n) && (n <=? 90))%N then ascii_of_N (n + 32) else c.

Fixpoint lower (s : string) : string :=
  match s with
  | EmptyString => EmptyString
  | String c r => String (lower_ascii c) (lower r)
  end.

(** [s.replace(a, b)] for one-character [a] and [b]. *)
Fixpoint replace_char (a b : ascii) (s : string) : string :=
  match s with
  | EmptyString => EmptyString
  | String c r =>
      String (if Ascii.eqb c a then b else c) (replace_char a b r)
  end.

(** [s.replace(a, empty)] for a one-character [a]. *)
Fixpoint remove_char (a : ascii) (s : string) : string :=
  match s with
  | EmptyString => EmptyString
  | String c r =>
      if Ascii.eqb c a then remove_char a r else String c (remove_char a r)
  end.

(** [s[:n]] *)
Fixpoint take (n : nat) (s : string) : string :=
  match n, s with
  | S k, String c r => String c (take k r)
  | _, _ => EmptyString
  end.

(** [s.endswith(suffix)] *)
Definition endswith (s suffix : string) : bool :=
  let n := String.length s in
  let k := String.length suffix in
  (k <=? n)%nat && String.eqb (substring (n - k) k s) suffix.

(** [s.startswith(prefix)] *)
Definition startswith (s pre : string) : bool := String.prefix pre s.

(** [x in l] for a list (or set) of strings *)
Definition mem (x : string) (l : list string) : bool :=
  existsb (String.eqb x) l.

(** Python truthiness of [str | None] *)
Definition truthy (o : option string) : bool :=
  match o with
  | Some (String _ _) => true
  | _ => false
  end.

(** [str(n)] for a non-negative integer *)
Definition of_nat (n : nat) : string :=
  NilEmpty.string_of_uint (Nat.to_uint n).

(** [last_split c l]: the parts before and after the last [c] in [l]
    (what slicing at [rfind] gives). *)
Fixpoint last_split (c : ascii) (l : list ascii)
  : option (list ascii * list ascii) :=
  match l with
  | [] => None
  | x :: r =>
      match last_split c r with
      | Some (a, b) => Some (x :: a, b)
      | None => if Ascii.eqb x c then Some ([], r) else None
      end
  end.

Definition newline : string := String "010" EmptyString.
Definition cr : string := String "013" EmptyString.

End Str.

(** ** os.path (POSIX flavour) on strings *)

Module OsPath.

(** [genericpath._splitext] with separator slash: the extension starts at
    the last dot of the last component, unless that component has only
    dots before it. *)
Definition splitext (p : string) : string * string :=
  let l := Str.chars p in
  let '(head, tail) :=
    match Str.last_split "/" l with
    | Some (a, b) => (a ++ ["/"%char], b)
    | None => ([], l)
    end in
  match Str.last_split "." tail with
  | Some (a, b) =>
      if forallb (Ascii.eqb ".") a then (p, EmptyString)
      else (Str.of_chars (head ++ a), Str.of_chars ("."%char :: b))
  | None => (p, EmptyString)
  end.

(** [posixpath.basename(p)]: what follows the last slash. *)
Definition basename (p : string) : string :=
  match Str.last_split "/" (Str.chars p) with
  | Some (_, b) => Str.of_chars b
  | None => p
  end.

End OsPath.

(** ** xml.etree.ElementTree elements *)

(** An element: tag, [.text] ([None] for an empty element) and children
    in document order. *)
Inductive element : Type :=
  Element (tag : string) (text : option string) (children : list element).

Module ET.

Definition tag (e : element) : string := let 'Element t _ _ := e in t.
Definition text (e : element) : option string := let 'Element _ x _ := e in x.
Definition children (e : element) : list element :=
  let 'Element _ _ c := e in c.

(** [e.find(t)]: first direct child with tag [t] *)
Definition find (t : string) (e : element) : option element :=
  List.find (fun c => String.eqb (tag c) t) (children e).

(** [e.findall(t)]: all direct children with tag [t], in order *)
Definition findall (t : string) (e : element) : list element :=
  List.filter (fun c => String.eqb (tag c) t) (children e).

(** [ET.SubElement(parent, t).text = x]: a new last child *)
Definition SubElement (parent : element) (t : string) (x : option string)
  : element :=
  let 'Element pt px pc := parent in Element pt px (pc ++ [Element t x []]).

End ET.

(** ** Configuration *)

Definition TARGET_RES_FANART : Z * Z := (1280, 720)%Z.
Definition TARGET_RES_COVER : Z * Z := (512, 512)%Z.
Definition TARGET_RES_LOGO : Z * Z := (512, 256)%Z.
Definition IMG_QUALITY : Z := 80%Z.

(** ** sanitize_lb_title *)

(** The character class of the pattern: less-than, greater-than, colon,
    double quote, slash, backslash, bar, question mark, star, single
    quote and backtick. *)
Definition lb_forbidden : list ascii :=
  ["<"; ">"; ":"; "034"; "/"; "\"; "|"; "?"; "*"; "'"; "`"]%char.

Definition is_forbidden (c : ascii) : bool :=
  existsb (Ascii.eqb c) lb_forbidden.

(** [re.sub(r'[...]', '_', title)]: every character of the class becomes
    an underscore, the others stay. *)
Fixpoint re_sub_forbidden (s : string) : string :=
  match s with
  | EmptyString => EmptyString
  | String c r =>
      String (if is_forbidden c then "_"%char else c) (re_sub_forbidden r)
  end.

Definition sanitize_lb_title (title : option string) : string :=
  if negb (Str.truthy title) then EmptyString
  else match title with
       | Some t => re_sub_forbidden t
       | None => EmptyString
       end.

(** ** Exceptions *)

Inductive exn : Type :=
| OSError (msg : string)
| ParseError (msg : string)
| UnidentifiedImageError (msg : string)
| ZeroDivisionError (msg : string)
| ValueError (msg : string).

(** [str(e)] *)
Definition exn_str (e : exn) : string :=
  match e with
  | OSError m | ParseError m | UnidentifiedImageError m
  | ZeroDivisionError m | ValueError m => m
  end.

Inductive result (A : Type) : Type :=
| Ok (a : A)
| Raise (e : exn).
Arguments Ok {A} a.
Arguments Raise {A} e.

(** ** Pillow: pictures and their geometry

    A picture is known by its size, its mode and its EXIF orientation
    tag.  [kept] records the rectangle of the operand that the last
    geometric operation retained (left, upper, right, lower), so that a
    crop stays visible on the result.  Pillow computes the rectangles and
    the aspect ratios in binary64; here they are exact rationals. *)

Module PIL.

Definition box : Type := Q * Q * Q * Q.

Record image : Type := Image {
  size : Z * Z;
  mode : string;
  orientation : option Z;
  kept : box
}.

Definition width (im : image) : Z := fst (size im).
Definition height (im : image) : Z := snd (size im).

Definition full (sz : Z * Z) : box :=
  (0, 0, inject_Z (fst sz), inject_Z (snd sz))%Q.

(** [Image.resize(size, resample, box)] with the checks of the C core. *)
Definition resize (im : image) (sz : Z * Z) (b : option box)
  : result image :=
  let '(l, t, r, d) := match b with Some b => b | None => full (size im) end in
  if ((fst sz <? 1) || (snd sz <? 1))%Z then
    Raise (ValueError "height and width must be > 0")
  else if negb (Qle_bool 0 l && Qle_bool 0 t) then
    Raise (ValueError "box offset can't be negative")
  else if negb (Qle_bool r (inject_Z (width im))
                && Qle_bool d (inject_Z (height im))) then
    Raise (ValueError "box can't exceed original image size")
  else if negb (Qle_bool l r && Qle_bool t d) then
    Raise (ValueError "box can't be empty")
  else Ok (Image sz (mode im) (orientation im) (l, t, r, d)).

(** [round_aspect] of [Image.thumbnail] (Pillow 7 and later): of floor
    and ceiling the one with the smaller key, the floor on a tie, and at
    least 1. *)
Definition round_aspect (number : Q) (key : Z -> Q) : Z :=
  let lo := Qfloor number in
  let hi := Qceiling number in
  Z.max (if Qle_bool (key lo) (key hi) then lo else hi) 1.

(** [preserve_aspect_ratio] of [Image.thumbnail]: [None] when the
    picture already fits the requested box. *)
Definition preserve_aspect_ratio (cur provided : Z * Z)
  : result (option (Z * Z)) :=
  let '(w, h) := cur in
  let '(x, y) := provided in
  if ((x >=? w) && (y >=? h))%Z then Ok None
  else if (h =? 0)%Z then Raise (ZeroDivisionError "division by zero")
  else
    let aspect := (inject_Z w / inject_Z h)%Q in
    if (y =? 0)%Z then Raise (ZeroDivisionError "division by zero")
    else if Qle_bool aspect (inject_Z x / inject_Z y) then
      Ok (Some (round_aspect (inject_Z y * aspect)
                  (fun n => Qabs (aspect - inject_Z n / inject_Z y)), y))
    else if Qeq_bool aspect 0 then
      Raise (ZeroDivisionError "float division by zero")
    else
      Ok (Some (x, round_aspect (inject_Z x / aspect)
                     (fun n => if (n =? 0)%Z then 0
                               else Qabs (aspect - inject_Z x / inject_Z n))))%Q.

(** [im.thumbnail(size, resample)] (in place; the new picture is
    returned here). *)
Definition thumbnail (im : image) (sz : Z * Z) : result image :=
  match preserve_aspect_ratio (size im) sz with
  | Raise e => Raise e
  | Ok None => Ok im
  | Ok (Some final) =>
      if decide (size im = final) then Ok im else resize im final None
  end.

(** The crop rectangle of [ImageOps.fit] (no bleed): a rectangle of
    the output's aspect ratio, as large as the picture allows, placed by
    [centering]. *)
Definition crop_at (live : Z * Z) (crop_width crop_height : Q)
    (centering : Q * Q) : box :=
  let crop_left := ((inject_Z (fst live) - crop_width) * fst centering)%Q in
  let crop_top := ((inject_Z (snd live) - crop_height) * snd centering)%Q in
  (crop_left, crop_top, crop_left + crop_width, crop_top + crop_height)%Q.

Definition fit_box (live target : Z * Z) (centering : Q * Q)
  : result box :=
  if ((snd live =? 0) || (snd target =? 0))%Z then
    Raise (ZeroDivisionError "division by zero")
  else
    let lw := inject_Z (fst live) in
    let lh := inject_Z (snd live) in
    let live_size_ratio := (lw / lh)%Q in
    let output_ratio :=
      (inject_Z (fst target) / inject_Z (snd target))%Q in
    if Qeq_bool live_size_ratio output_ratio then
      Ok (crop_at live lw lh centering)
    else if Qle_bool output_ratio live_size_ratio then
      Ok (crop_at live (output_ratio * lh) lh centering)
    else if Qeq_bool output_ratio 0 then
      Raise (ZeroDivisionError "float division by zero")
    else Ok (crop_at live lw (lw / output_ratio) centering).

(** [ImageOps.fit(image, size, method, centering=centering)] *)
Definition fit (im : image) (target : Z * Z) (centering : Q * Q)
  : result image :=
  match fit_box (size im) target centering with
  | Raise e => Raise e
  | Ok crop => resize im target (Some crop)
  end.

(** [ImageOps.exif_transpose(image)]: orientations 5 to 8 exchange
    width and height, 2 to 4 keep them; the tag is dropped from the
    transposed picture.  Without such a tag a copy is returned. *)
Definition exif_transpose (im : image) : image :=
  match orientation im with
  | Some o =>
      if ((5 <=? o) && (o <=? 8))%Z then
        let sz := (height im, width im) in
        Image sz (mode im) None (full (size im))
      else if ((2 <=? o) && (o <=? 4))%Z then
        Image (size im) (mode im) None (full (size im))
      else im
  | None => im
  end.

(** [img.convert('RGB')] *)
Definition convert (im : image) (m : string) : image :=
  Image (size im) m (orientation im) (kept im).

(** Modes the JPEG and PNG writers accept. *)
Definition writable_modes (format : string) : list string :=
  if String.eqb format "JPEG" then ["1"; "L"; "RGB"; "RGBX"; "CMYK"; "YCbCr"]
  else if String.eqb format "PNG" then
    ["1"; "L"; "LA"; "I"; "I;16"; "I;16B"; "P"; "RGB"; "RGBA"]
  else [].

(** What [img.save] was asked to write. *)
Record encoded : Type := Encoded {
  format : string;
  quality : option Z;
  optimize : bool;
  picture : image
}.

End PIL.

(** ** The file tree

    A path is the list of its components from the root; joining a
    directory with a plain name appends the name.  A directory lists its
    entries in the order the operating system reports them. *)

Definition path : Type := list string.

Inductive content : Type :=
| XmlDoc (root : element)
| Picture (e : PIL.encoded)
| Blob.

Inductive node : Type :=
| File (c : content)
| Dir (entries : list (string * node)).

(** The path as the script prints it. *)
Definition path_str (p : path) : string :=
  fold_right (fun c acc => "/" +:+ c +:+ acc) EmptyString p.

(** [os.path.dirname] *)
Definition dirname (p : path) : path := removelast p.

Module FS.

Fixpoint assoc {A : Type} (k : string) (l : list (string * A)) : option A :=
  match l with
  | [] => None
  | (k', v) :: r => if String.eqb k k' then Some v else assoc k r
  end.

(** Replace the entry called [k], or add it at the end. *)
Fixpoint set {A : Type} (k : string) (v : A) (l : list (string * A))
  : list (string * A) :=
  match l with
  | [] => [(k, v)]
  | (k', v') :: r =>
      if String.eqb k k' then (k', v) :: r else (k', v') :: set k v r
  end.

Fixpoint lookup (n : node) (p : path) : option node :=
  match p with
  | [] => Some n
  | c :: r =>
      match n with
      | Dir es =>
          match assoc c es with
          | Some m => lookup m r
          | None => None
          end
      | File _ => None
      end
  end.

(** Create or overwrite the file at [p]; the parent must be a directory
    and [p] itself must not be one. *)
Fixpoint put (n : node) (p : path) (c : content) : option node :=
  match p, n with
  | [], _ => None
  | [k], Dir es =>
      match assoc k es with
      | Some (Dir _) => None
      | _ => Some (Dir (set k (File c) es))
      end
  | k :: r, Dir es =>
      match assoc k es with
      | Some m =>
          match put m r c with
          | Some m' => Some (Dir (set k m' es))
          | None => None
          end
      | None => None
      end
  | _ :: _, File _ => None
  end.

(** [os.makedirs(p, exist_ok=True)]: create the missing directories
    along [p]; fails when a component is a file. *)
Fixpoint mkdirs (n : node) (p : path) : option node :=
  match n with
  | File _ => None
  | Dir es =>
      match p with
      | [] => Some n
      | k :: r =>
          match mkdirs (match assoc k es with
                        | Some m => m
                        | None => Dir []
                        end) r with
          | Some m' => Some (Dir (set k m' es))
          | None => None
          end
      end
  end.

Definition is_dir (n : node) : bool :=
  match n with Dir _ => true | File _ => false end.

Definition dirnames (es : list (string * node)) : list string :=
  map fst (List.filter (fun e => is_dir (snd e)) es).

Definition filenames (es : list (string * node)) : list string :=
  map fst (List.filter (fun e => negb (is_dir (snd e))) es).

(** [os.walk(top)], top down: the directory itself, then every
    sub-directory in turn. *)
Fixpoint walk (top : path) (n : node)
  : list (path * list string * list string) :=
  match n with
  | File _ => []
  | Dir es =>
      (top, dirnames es, filenames es)
      :: (fix below (l : list (string * node)) :=
            match l with
            | [] => []
            | (k, m) :: r => walk (top ++ [k]) m ++ below r
            end) es
  end.

End FS.

(** ** The world and the monad of the script *)

Inductive event : Type :=
| EvPrint (text : string)
| EvInput (prompt : string)
| EvChdir (p : path)
| EvStat (p : path)
| EvScan (p : path)
| EvRead (p : path)
| EvMkdirs (p : path)
| EvWrite (p : path).

Record world : Type := World {
  fs : node;
  cwd : path;
  trace : list event
}.

Definition M (A : Type) : Type := world -> result A * world.

Definition ret {A : Type} (a : A) : M A := fun w => (Ok a, w).

Definition bind {A B : Type} (m : M A) (k : A -> M B) : M B :=
  fun w =>
    match m w with
    | (Ok a, w') => k a w'
    | (Raise e, w') => (Raise e, w')
    end.

Definition raise {A : Type} (e : exn) : M A := fun w => (Raise e, w).

(** [try: m  except Exception as e: handler(e)] *)
Definition try_except {A : Type} (m : M A) (handler : exn -> M A) : M A :=
  fun w =>
    match m w with
    | (Ok a, w') => (Ok a, w')
    | (Raise e, w') => handler e w'
    end.

Definition lift {A : Type} (r : result A) : M A := fun w => (r, w).

Definition emit (e : event) : M unit :=
  fun w => (Ok tt, World (fs w) (cwd w) (trace w ++ [e])).

Definition get_fs : M node := fun w => (Ok (fs w), w).
Definition set_fs (n : node) : M unit :=
  fun w => (Ok tt, World n (cwd w) (trace w)).
Definition get_cwd : M path := fun w => (Ok (cwd w), w).

Declare Scope monad_scope.
Delimit Scope monad_scope with monad.
Notation "x <- m ;; k" := (bind m (fun x => k))
  (at level 100, m at next level, right associativity) : monad_scope.
Notation "m ;; k" := (bind m (fun _ => k))
  (at level 100, right associativity) : monad_scope.
Local Open Scope monad_scope.

(** [for x in l: acc = body(acc, x)] *)
Fixpoint for_each {A B : Type} (body : B -> A -> M B) (l : list A) (acc : B)
  : M B :=
  match l with
  | [] => ret acc
  | x :: r => acc' <- body acc x;; for_each body r acc'
  end.

(** [[x for x in l if test(x)]] with an effectful test *)
Fixpoint filter_m {A : Type} (test : A -> M bool) (l : list A) : M (list A) :=
  match l with
  | [] => ret []
  | x :: r =>
      b <- test x;;
      r' <- filter_m test r;;
      ret (if b then x :: r' else r')
  end.

(** [print(text)] and [print(text, end=e)] *)
Definition print (text : string) : M unit := emit (EvPrint (text +:+ Str.newline)).
Definition print_end (text e : string) : M unit := emit (EvPrint (text +:+ e)).
Definition input (prompt : string) : M unit := emit (EvInput prompt).

(** ** Operating system, XML and Pillow calls *)

Module Os.

Definition chdir (p : path) : M unit :=
  emit (EvChdir p);;
  (fun w => (Ok tt, World (fs w) p (trace w))).

(** [os.path.abspath(name)] for a plain name *)
Definition abspath (name : string) : M path :=
  c <- get_cwd;; ret (c ++ [name]).

Definition path_exists (p : path) : M bool :=
  emit (EvStat p);;
  n <- get_fs;;
  ret (match FS.lookup n p with Some _ => true | None => false end).

Definition isfile (p : path) : M bool :=
  emit (EvStat p);;
  n <- get_fs;;
  ret (match FS.lookup n p with Some (File _) => true | _ => false end).

Definition isdir (p : path) : M bool :=
  emit (EvStat p);;
  n <- get_fs;;
  ret (match FS.lookup n p with Some (Dir _) => true | _ => false end).

Definition listdir (p : path) : M (list string) :=
  emit (EvScan p);;
  n <- get_fs;;
  match FS.lookup n p with
  | Some (Dir es) => ret (map fst es)
  | Some (File _) => raise (OSError "Not a directory")
  | None => raise (OSError "No such file or directory")
  end.

(** [os.walk(top)]; errors of the scan are ignored, so a missing or
    plain-file [top] yields nothing. *)
Definition walk (top : path) : M (list (path * list string * list string)) :=
  emit (EvScan top);;
  n <- get_fs;;
  ret (match FS.lookup n top with
       | Some m => FS.walk top m
       | None => []
       end).

(** [glob(os.path.join(directory, "*" + suffix))]: the entries whose
    name ends with [suffix], hidden names left out. *)
Definition glob_suffix (directory : path) (suffix : string) : M (list path) :=
  emit (EvScan directory);;
  n <- get_fs;;
  ret (match FS.lookup n directory with
       | Some (Dir es) =>
           map (fun k => directory ++ [k])
             (List.filter (fun k => Str.endswith k suffix
                               && negb (Str.startswith k "."))
                (map fst es))
       | _ => []
       end).

Definition makedirs (p : path) : M unit :=
  emit (EvMkdirs p);;
  n <- get_fs;;
  match FS.mkdirs n p with
  | Some n' => set_fs n'
  | None => raise (OSError "File exists")
  end.

(** Open [p] for writing and store [c]. *)
Definition write_file (p : path) (c : content) : M unit :=
  emit (EvWrite p);;
  n <- get_fs;;
  match FS.put n p c with
  | Some n' => set_fs n'
  | None => raise (OSError "cannot open for writing")
  end.

(** Insertion of [x] in a list sorted by code points. *)
Fixpoint insert_sorted (x : string) (l : list string) : list string :=
  match l with
  | [] => [x]
  | y :: r => if String.leb x y then x :: l else y :: insert_sorted x r
  end.

(** [sorted(l)] *)
Definition sorted (l : list string) : list string :=
  fold_right insert_sorted [] l.

End Os.

(** [ET.parse(p).getroot()] *)
Definition ET_parse (p : path) : M element :=
  emit (EvRead p);;
  n <- get_fs;;
  match FS.lookup n p with
  | Some (File (XmlDoc root)) => ret root
  | Some (File _) => raise (ParseError "syntax error")
  | Some (Dir _) => raise (OSError "Is a directory")
  | None => raise (OSError "No such file or directory")
  end.

(** [ET.ElementTree(root).write(p, ...)]; the indentation applied before
    only touches the white space between elements and is left out. *)
Definition ET_write (root : element) (p : path) : M unit :=
  Os.write_file p (XmlDoc root).

(** [Image.open(p)] *)
Definition Image_open (p : path) : M PIL.image :=
  emit (EvRead p);;
  n <- get_fs;;
  match FS.lookup n p with
  | Some (File (Picture e)) =>
      let im := PIL.picture e in
      ret (PIL.Image (PIL.size im) (PIL.mode im) (PIL.orientation im)
             (PIL.full (PIL.size im)))
  | Some (File _) => raise (UnidentifiedImageError "cannot identify image file")
  | Some (Dir _) => raise (OSError "Is a directory")
  | None => raise (OSError "No such file or directory")
  end.

(** [img.save(p, format, quality=..., optimize=...)]: the EXIF tag is not
    carried over; a mode the writer does not accept is an error. *)
Definition Image_save (im : PIL.image) (p : path) (format : string)
    (quality : option Z) (optimize : bool) : M unit :=
  if Str.mem (PIL.mode im) (PIL.writable_modes format) then
    Os.write_file p
      (Picture (PIL.Encoded format quality optimize
                  (PIL.Image (PIL.size im) (PIL.mode im) None (PIL.kept im))))
  else raise (OSError ("cannot write mode " +:+ PIL.mode im +:+ " as " +:+ format)).

(** ** find_image *)

Definition valid_exts : list string := [".jpg"; ".png"; ".jpeg"; ".gif"].

Definition candidates (title_sanitized rom_filename_no_ext : string)
  : list string :=
  [ title_sanitized +:+ "-01"; title_sanitized;
    rom_filename_no_ext +:+ "-01"; Str.replace_char "_" " " title_sanitized ].

(** The test of the inner loop on one file name. *)
Definition matches (cands : list string) (file : string) : bool :=
  let '(name, ext) := OsPath.splitext file in
  Str.mem (Str.lower ext) valid_exts && Str.mem name cands.

(** The two nested loops: the first matching file of the first directory
    that has one. *)
Fixpoint first_match (cands : list string)
    (walked : list (path * list string * list string)) : option path :=
  match walked with
  | [] => None
  | (root, _, files) :: rest =>
      match List.find (matches cands) files with
      | Some file => Some (root ++ [file])
      | None => first_match cands rest
      end
  end.

Definition find_image (base_dir : path) (type_folder : string)
    (title_sanitized rom_filename_no_ext : string) : M (option path) :=
  let search_root := base_dir ++ [type_folder] in
  found <- Os.path_exists search_root;;
  if negb found then ret None
  else
    let cands := candidates title_sanitized rom_filename_no_ext in
    walked <- Os.walk search_root;;
    ret (first_match cands walked).

(** ** process_image_cover, process_image_fanart, process_image_marquee *)

Definition to_rgb (img : PIL.image) : PIL.image :=
  if negb (String.eqb (PIL.mode img) "RGB") then PIL.convert img "RGB" else img.

Definition process_image_cover (source_path dest_path : path) : M bool :=
  try_except
    (img <- Image_open source_path;;
     let img := PIL.exif_transpose img in
     let img := to_rgb img in
     img <- lift (PIL.thumbnail img TARGET_RES_COVER);;
     Os.makedirs (dirname dest_path);;
     Image_save img dest_path "JPEG" (Some IMG_QUALITY) true;;
     ret true)
    (fun e =>
       print ("Error processing cover " +:+ path_str source_path +:+ ": "
              +:+ exn_str e);;
       ret false).

Definition process_image_fanart (source_path dest_path : path) : M bool :=
  try_except
    (img <- Image_open source_path;;
     let img := PIL.exif_transpose img in
     let img := to_rgb img in
     img <- lift (PIL.fit img TARGET_RES_FANART (1 # 2, 1 # 2)%Q);;
     Os.makedirs (dirname dest_path);;
     Image_save img dest_path "JPEG" (Some IMG_QUALITY) true;;
     ret true)
    (fun e =>
       print ("Error processing fanart " +:+ path_str source_path +:+ ": "
              +:+ exn_str e);;
       ret false).

Definition process_image_marquee (source_path dest_path : path) : M bool :=
  try_except
    (img <- Image_open source_path;;
     img <- lift (PIL.thumbnail img TARGET_RES_LOGO);;
     Os.makedirs (dirname dest_path);;
     Image_save img dest_path "PNG" None true;;
     ret true)
    (fun e =>
       print ("Error processing marquee " +:+ path_str source_path +:+ ": "
              +:+ exn_str e);;
       ret false).

(** ** get_launchbox_xml *)

Definition get_launchbox_xml (directory : path) : M (option path) :=
  found <- Os.glob_suffix directory ".xml";;
  ret (List.find
         (fun f => negb (Str.endswith (Str.lower (path_str f)) "gamelist.xml"))
         found).

(** ** process_directory *)

Definition game_exts : list string :=
  [".chd"; ".n64"; ".z64"; ".v64"; ".gdi"; ".cdi"; ".iso"; ".cue"; ".bin";
   ".img"; ".mdf"; ".pbp"].

(** Lines 110 to 114: the lookup from ROM file name to its Game node. *)
Definition add_game (rom_map : gmap string element) (game : element)
  : gmap string element :=
  match ET.find "ApplicationPath" game with
  | Some app_path =>
      match ET.text app_path with
      | Some (String _ _ as t) => <[OsPath.basename t := game]> rom_map
      | _ => rom_map
      end
  | None => rom_map
  end.

Definition build_rom_map (root : element) : gmap string element :=
  fold_left add_game (ET.findall "Game" root) ∅.

(** Lines 146 to 149: one of Developer, Publisher, Genre, MaxPlayers. *)
Definition copy_tag (game_node game_elem : element) (tag : string) : element :=
  match ET.find tag game_node with
  | Some node =>
      if Str.truthy (ET.text node) then
        ET.SubElement game_elem (Str.lower tag) (ET.text node)
      else game_elem
  | None => game_elem
  end.

(** Lines 139 to 153: name, description, copied tags and release date.
    Returns the entry and [title_text]. *)
Definition add_metadata (game_node : element) (name : string)
    (game_elem : element) : element * option string :=
  let title_text :=
    match ET.find "Title" game_node with
    | Some title => ET.text title
    | None => Some name
    end in
  let game_elem := ET.SubElement game_elem "name" title_text in
  let game_elem :=
    match ET.find "Notes" game_node with
    | Some desc => ET.SubElement game_elem "desc" (ET.text desc)
    | None => game_elem
    end in
  let game_elem :=
    fold_left (copy_tag game_node)
      ["Developer"; "Publisher"; "Genre"; "MaxPlayers"] game_elem in
  let game_elem :=
    match ET.find "ReleaseDate" game_node with
    | Some rel =>
        match ET.text rel with
        | Some (String _ _ as t) =>
            if (10 <=? String.length t)%nat then
              ET.SubElement game_elem "releasedate"
                (Some (Str.remove_char "-" (Str.take 10 t) +:+ "T000000"))
            else game_elem
        | _ => game_elem
        end
    | None => game_elem
    end in
  (game_elem, title_text).

(** One of the three artwork blocks (lines 160 to 165, 168 to 173, 176 to
    181): look the asset up, process it, and add the field on success. *)
Definition add_art (type_folder tag subdir ext : string)
    (process : path -> path -> M bool)
    (full_dir_path : path) (sanitized name rom_base : string)
    (game_elem : element) : M element :=
  src <- find_image full_dir_path type_folder sanitized name;;
  match src with
  | Some src =>
      let dest_rel := "./images/" +:+ subdir +:+ "/" +:+ rom_base +:+ ext in
      let dest_abs := full_dir_path ++ ["images"; subdir; rom_base +:+ ext] in
      ok <- process src dest_abs;;
      if ok then ret (ET.SubElement game_elem tag (Some dest_rel))
      else ret game_elem
  | None => ret game_elem
  end.

Definition add_cover :=
  add_art "Front" "image" "covers" ".jpg" process_image_cover.
Definition add_fanart :=
  add_art "Screenshot" "fanart" "fanart" ".jpg" process_image_fanart.
Definition add_marquee :=
  add_art "Clear Logo" "marquee" "marquees" ".png" process_image_marquee.

(** Lines 131 to 185: the entry of one ROM file.  The entry is built
    first and attached to [new_root] afterwards; the script attaches it
    first and fills it in place, which gives the same tree. *)
Definition game_entry (full_dir_path : path)
    (rom_map : gmap string element) (f name : string) : M element :=
  let game_elem := Element "game" None [] in
  let game_elem := ET.SubElement game_elem "path" (Some ("./" +:+ f)) in
  match rom_map !! f with
  | Some game_node =>
      let '(game_elem, title_text) := add_metadata game_node name game_elem in
      let sanitized := sanitize_lb_title title_text in
      let rom_base := fst (OsPath.splitext f) in
      game_elem <- add_cover full_dir_path sanitized name rom_base game_elem;;
      game_elem <- add_fanart full_dir_path sanitized name rom_base game_elem;;
      add_marquee full_dir_path sanitized name rom_base game_elem
  | None => ret (ET.SubElement game_elem "name" (Some name))
  end.

(** Lines 126 to 187: the body of the loop over the files. *)
Definition process_file (full_dir_path : path)
    (rom_map : gmap string element) (acc : element * nat) (f : string)
  : M (element * nat) :=
  let '(new_root, count) := acc in
  let '(name, ext) := OsPath.splitext f in
  if negb (Str.mem (Str.lower ext) game_exts) then ret acc
  else
    print_end ("  Game: " +:+ name) Str.cr;;
    game_elem <- game_entry full_dir_path rom_map f name;;
    let 'Element t x c := new_root in
    ret (Element t x (c ++ [game_elem]), S count).

Definition process_directory (directory_name : string) : M unit :=
  full_dir_path <- Os.abspath directory_name;;
  lb_xml <- get_launchbox_xml full_dir_path;;
  match lb_xml with
  | None => ret tt
  | Some lb_xml =>
      print ("Processing: " +:+ directory_name +:+ " (found "
             +:+ List.last lb_xml EmptyString +:+ ")");;
      parsed <- try_except
                  (root <- ET_parse lb_xml;; ret (Some root))
                  (fun e => print ("  XML Error: " +:+ exn_str e);; ret None);;
      match parsed with
      | None => ret tt
      | Some root =>
          let rom_map := build_rom_map root in
          let new_root := Element "gameList" None [] in
          names <- Os.listdir full_dir_path;;
          files <- filter_m (fun f => Os.isfile (full_dir_path ++ [f])) names;;
          let files := Os.sorted files in
          built <-
            for_each (process_file full_dir_path rom_map) files (new_root, O);;
          let '(new_root, count) := built in
          let output_path := full_dir_path ++ ["gamelist.xml"] in
          ET_write new_root output_path;;
          print (Str.newline +:+ "  Generated "
                 +:+ List.last output_path EmptyString
                 +:+ " with " +:+ Str.of_nat count +:+ " games.")
      end
  end.

(** ** The main block *)

Definition excludes : list string :=
  ["System Volume Information"; "$RECYCLE.BIN"; "images"; "Config"].

(** The body of the loop over the sub-directories; [found] counts the
    folders handed to [process_directory]. *)
Definition scan_dir (found : nat) (d : string) : M nat :=
  if Str.mem d excludes || Str.startswith d "." then ret found
  else
    p <- Os.abspath d;;
    lb_xml <- get_launchbox_xml p;;
    match lb_xml with
    | Some _ => process_directory d;; ret (S found)
    | None => ret found
    end.

(** [file] is the absolute path of the script. *)
Definition main (file : path) : M unit :=
  let current_dir := dirname file in
  Os.chdir current_dir;;
  here <- get_cwd;;
  names <- Os.listdir here;;
  dirs <- filter_m (fun d => Os.isdir (here ++ [d])) names;;
  print "TamScraper v2.0 - Starting Universal Scan...";;
  found <- for_each scan_dir dirs O;;
  (if (found =? 0)%nat then print "No folders with LaunchBox XML found."
   else ret tt);;
  print "Done.";;
  input "Press Enter to close...".

(** ** Vocabulary of the statements *)

(** The entry has a child with tag [t]. *)
Definition has_field (t : string) (e : element) : bool :=
  match ET.find t e with Some _ => true | None => false end.


(** The key under which a Game node enters the lookup, if any: the
    basename of a non-empty ApplicationPath. *)
Definition app_basename (game : element) : option string :=
  match ET.find "ApplicationPath" game with
  | Some app_path =>
      match ET.text app_path with
      | Some (String _ _ as t) => Some (OsPath.basename t)
      | _ => None
      end
  | None => None
  end.

(** The picture stored at [p], with the parameters it was encoded with. *)
Definition picture_at (n : node) (p : path) : option PIL.encoded :=
  match FS.lookup n p with
  | Some (File (Picture e)) => Some e
  | _ => None
  end.



(** [b] lies inside a picture of size [sz], has the proportions of
    [target], is centred, and leaves out pixels along one axis at most. *)
Definition centred_cover_crop (b : PIL.box) (sz target : Z * Z) : Prop :=
  let '(l, t, r, d) := b in
  (0 <= l /\ 0 <= t /\ r <= inject_Z (fst sz) /\ d <= inject_Z (snd sz)
   /\ (r - l) * inject_Z (snd target) == (d - t) * inject_Z (fst target)
   /\ l == inject_Z (fst sz) - r
   /\ t == inject_Z (snd sz) - d
   /\ (l == 0 \/ t == 0))%Q.

(** The entry before the metadata: just the path. *)
Definition path_only (f : string) : element :=
  ET.SubElement (Element "game" None []) "path" (Some ("./" +:+ f)).

(** What [copy_tag] contributes for [tag]. *)
Definition copied (g : element) (tag : string) : option element :=
  match ET.find tag g with
  | Some node =>
      if Str.truthy (ET.text node)
      then Some (Element (Str.lower tag) (ET.text node) [])
      else None
  | None => None
  end.

(** The extension test of the loop over the files. *)
Definition is_rom (f : string) : bool :=
  Str.mem (Str.lower (snd (OsPath.splitext f))) game_exts.

(** The metadata file of a directory, as a function of the tree. *)
Definition launchbox_xml_in (n : node) (directory : path) : option path :=
  List.find
    (fun f => negb (Str.endswith (Str.lower (path_str f)) "gamelist.xml"))
    match FS.lookup n directory with
    | Some (Dir es) =>
        map (fun k => directory ++ [k])
          (List.filter
             (fun k => Str.endswith k ".xml" && negb (Str.startswith k "."))
             (map fst es))
    | _ => []
    end.

(** ** Vocabulary of the frame and scan properties *)

(** The content of the plain file at [q], if there is one. *)
Definition file_at (n : node) (q : path) : option content :=
  match FS.lookup n q with
  | Some (File c) => Some c
  | _ => None
  end.

(** [q] and [p] part ways at some component. *)
Definition diverge (q p : path) : Prop :=
  exists c a b r1 r2, a <> b /\ q = c ++ a :: r1 /\ p = c ++ b :: r2.

(** Every run of [m] takes a world to one related to it by [R]. *)
Definition respects (R : world -> world -> Prop) {A : Type} (m : M A) : Prop :=
  forall w r w', m w = (r, w') -> R w w'.

(** From [w] to [w'] no plain file other than [dst] was created, changed
    or removed, every node off the way to [dst] is as it was, and the
    working directory is the same. *)
Definition only_wrote (dst : path) (w w' : world) : Prop :=
  (forall q, q <> dst -> file_at (fs w') q = file_at (fs w) q)
  /\ (forall q, diverge q dst -> FS.lookup (fs w') q = FS.lookup (fs w) q)
  /\ cwd w' = cwd w.

(** The files a run on the folder [dir] may write. *)
Definition output_of (dir q : path) : Prop :=
  q = dir ++ ["gamelist.xml"]
  \/ exists subdir name, q = dir ++ ["images"; subdir; name].

(** From [w] to [w'] nothing changed except picture files under
    [dir/images]: every other plain file is as it was, every entry of
    [dir] other than [images] is the same node, and so is every node off
    the way to [dir]. *)
Definition images_only (dir : path) (w w' : world) : Prop :=
  (forall q, ~ (exists subdir name, q = dir ++ ["images"; subdir; name]) ->
     file_at (fs w') q = file_at (fs w) q)
  /\ (forall k rest, k <> "images" ->
        FS.lookup (fs w') (dir ++ k :: rest) = FS.lookup (fs w) (dir ++ k :: rest))
  /\ (forall q, diverge q dir -> FS.lookup (fs w') q = FS.lookup (fs w) q)
  /\ cwd w' = cwd w.

(** From [w] to [w'] nothing changed except output files of [dir]: every
    other plain file is as it was, every entry of [dir] other than
    [images] and [gamelist.xml] is the same node, and so is every node
    off the way to [dir]. *)
Definition folder_kept (dir : path) (w w' : world) : Prop :=
  (forall q, ~ output_of dir q -> file_at (fs w') q = file_at (fs w) q)
  /\ (forall k rest, k <> "images" -> k <> "gamelist.xml" ->
        FS.lookup (fs w') (dir ++ k :: rest) = FS.lookup (fs w) (dir ++ k :: rest))
  /\ (forall q, diverge q dir -> FS.lookup (fs w') q = FS.lookup (fs w) q)
  /\ cwd w' = cwd w.

(** The test that makes the main loop pass over a sub-directory. *)
Definition skipped (d : string) : bool :=
  Str.mem d excludes || Str.startswith d ".".

(** Started in [here], the run stays in [here]; it changes no plain file
    other than outputs of sub-directories that are not skipped, and leaves
    every node of a skipped sub-directory as it was. *)
Definition main_kept (here : path) (w w' : world) : Prop :=
  cwd w = here ->
  cwd w' = here
  /\ (forall q,
        ~ (exists d, skipped d = false /\ output_of (here ++ [d]) q) ->
        file_at (fs w') q = file_at (fs w) q)
  /\ (forall d rest, skipped d = true ->
        FS.lookup (fs w') (here ++ d :: rest) = FS.lookup (fs w) (here ++ d :: rest)).

(** [os.path.isfile] as a function of the tree. *)
Definition is_file_at (n : node) (p : path) : bool :=
  match FS.lookup n p with Some (File _) => true | _ => false end.

(** The names of the plain files of the directory [dir], as listed. *)
Definition plain_files (n : node) (dir : path) : list string :=
  match FS.lookup n dir with
  | Some (Dir es) =>
      List.filter (fun k => is_file_at n (dir ++ [k])) (map fst es)
  | _ => []
  end.


(** The plain files below [top] in the order [os.walk] yields them. *)
Definition walk_files (top : path) (n : node) : list path :=
  concat (map (fun '(root, _, files) => map (fun f => root ++ [f]) files)
            (FS.walk top n)).








(** The entry of a ROM file without metadata. *)
Definition minimal_entry (f : string) : element :=
  Element "game" None
    [ Element "path" (Some ("./" +:+ f)) [];
      Element "name" (Some (fst (OsPath.splitext f))) [] ].

(** The names [os.listdir] gives for [dir]; none when [dir] is not a
    directory. *)
Definition listing (n : node) (dir : path) : list string :=
  match FS.lookup n dir with
  | Some (Dir es) => map fst es
  | _ => []
  end.

(** From [w] to [w'] the listing of [dir] kept its names in their order
    and gained, at the end, at most the names images and gamelist.xml. *)
Definition listing_grows (dir : path) (w w' : world) : Prop :=
  exists extra,
    listing (fs w') dir = listing (fs w) dir ++ extra
    /\ forall k, In k extra -> k = "images" \/ k = "gamelist.xml".

(** ** Sample data: a small collection *)

Module Sample.

Definition leaf (t x : string) : element := Element t (Some x) [].

Definition pic (format : string) (w h : Z) (m : string) (o : option Z)
  : node :=
  File (Picture (PIL.Encoded format None false
                   (PIL.Image (w, h) m o (PIL.full (w, h))))).

Definition sonic : element :=
  Element "Game" None
    [ leaf "ApplicationPath" "roms/Sonic.bin";
      leaf "Title" "Sonic the Hedgehog";
      Element "Notes" None [];
      leaf "Developer" "Sega";
      Element "Publisher" None [];
      leaf "ReleaseDate" "1991-06-23T00:00:00" ].

Definition sonic_old : element :=
  Element "Game" None
    [ leaf "ApplicationPath" "old/Sonic.bin"; leaf "Title" "Sonic (proto)" ].

Definition nameless : element :=
  Element "Game" None
    [ Element "ApplicationPath" None []; leaf "Title" "Nameless" ].

Definition metadata : element :=
  Element "LaunchBox" None [sonic_old; nameless; sonic].

Definition genesis : node :=
  Dir [ ("Metadata.xml", File (XmlDoc metadata));
        ("Sonic.bin", File Blob);
        ("Other.iso", File Blob);
        ("readme.txt", File Blob);
        ("Front",
         Dir [("Sonic the Hedgehog-01.jpg", pic "JPEG" 1000 600 "RGB" None);
              ("Tall-01.jpg", pic "JPEG" 300 400 "RGB" (Some 6%Z))]);
        ("Screenshot",
         Dir [("sub",
               Dir [("Sonic the Hedgehog.PNG", pic "PNG" 1000 600 "P" None)])]);
        ("Clear Logo",
         Dir [("Sonic-01.gif", pic "GIF" 1000 3 "P" None);
              ("notes.txt", File Blob)]) ].

Definition broken : node :=
  Dir [ ("export.xml", File Blob); ("Game.iso", File Blob) ].

Definition tree : node :=
  Dir [ ("home",
         Dir [ ("TamScraper.py", File Blob);
               ("Broken", broken);
               ("Genesis", genesis) ]) ].

Definition start : world := World tree ["home"] [].

Definition genesis_dir : path := ["home"; "Genesis"].
Definition front_src : path :=
  genesis_dir ++ ["Front"; "Sonic the Hedgehog-01.jpg"].
Definition tall_src : path := genesis_dir ++ ["Front"; "Tall-01.jpg"].
Definition shot_src : path :=
  genesis_dir ++ ["Screenshot"; "sub"; "Sonic the Hedgehog.PNG"].
Definition cover_dest : path := genesis_dir ++ ["images"; "covers"; "Sonic.jpg"].
Definition fanart_dest : path := genesis_dir ++ ["images"; "fanart"; "Sonic.jpg"].
Definition marquee_dest : path :=
  genesis_dir ++ ["images"; "marquees"; "Sonic.png"].

End Sample.

(** ** Sample data: folders that go wrong *)

Module Edge.

(** A folder whose gamelist.xml is a directory. *)
Definition saturn : node :=
  Dir [ ("export.xml", File (XmlDoc Sample.metadata));
        ("Game.iso", File Blob);
        ("gamelist.xml", Dir []) ].

(** A folder whose logo is a CMYK picture. *)
Definition jaguar : node :=
  Dir [ ("Jaguar.xml", File (XmlDoc Sample.metadata));
        ("Sonic.bin", File Blob);
        ("Clear Logo", Dir [("Sonic-01.jpg", Sample.pic "JPEG" 400 100 "CMYK" None)]) ].

Definition tree : node :=
  Dir [ ("home",
         Dir [ ("TamScraper.py", File Blob);
               ("Genesis", Sample.genesis);
               ("Saturn", saturn);
               ("Jaguar", jaguar) ]) ].

Definition start : world := World tree ["home"] [].

(** A collection with nothing to scan. *)
Definition idle_tree : node :=
  Dir [ ("home",
         Dir [ ("TamScraper.py", File Blob);
               (".cache", Dir [("Metadata.xml", File (XmlDoc Sample.metadata))]);
               ("images", Dir [("Metadata.xml", File (XmlDoc Sample.metadata))]);
               ("docs", Dir [("gamelist.xml", File Blob); ("readme.txt", File Blob)]) ]) ].

Definition idle : world := World idle_tree ["home"] [].

Definition script : path := ["home"; "TamScraper.py"].
Definition blob_src : path := Sample.genesis_dir ++ ["Clear Logo"; "notes.txt"].

End Edge.

(** ** Sample data: a folder whose metadata names none of its files *)

Module Unmatched.

Definition dreamcast : node :=
  Dir [ ("db.xml", File (XmlDoc Sample.metadata));
        ("Crazy.cdi", File Blob);
        ("notes.txt", File Blob) ].

Definition tree : node := Dir [ ("home", Dir [ ("Dreamcast", dreamcast) ]) ].

Definition start : world := World tree ["home"] [].

End Unmatched.

(** * Properties *)

(** ** Strings and paths *)

Lemma last_split_app c l a b :
  Str.last_split c l = Some (a, b) -> l = a ++ c :: b.
Proof.
  revert a b. induction l as [|x r IH]; simpl; intros a b H; [discriminate|].
  destruct (Str.last_split c r) as [[a' b']|] eqn:E.
  - injection H as <- <-. simpl. f_equal. now apply IH.
  - destruct (Ascii.eqb x c) eqn:Ex; [|discriminate].
    apply Ascii.eqb_eq in Ex. injection H as <- <-. now subst.
Qed.

Lemma of_chars_app a b :
  Str.of_chars (a ++ b) = Str.of_chars a +:+ Str.of_chars b.
Proof.
  unfold Str.of_chars. induction a as [|x a IH]; simpl; [reflexivity|].
  rewrite IH. reflexivity.
Qed.

Lemma of_chars_chars s : Str.of_chars (Str.chars s) = s.
Proof. apply string_of_list_ascii_of_string. Qed.

Lemma append_empty_r s : s +:+ EmptyString = s.
Proof.
  induction s as [|a s IH]; [reflexivity|].
  change (String a (s +:+ EmptyString) = String a s). now f_equal.
Qed.

Lemma splitext_concat p name ext :
  OsPath.splitext p = (name, ext) -> p = name +:+ ext.
Proof.
  unfold OsPath.splitext.
  destruct (Str.last_split "/" (Str.chars p)) as [[a b]|] eqn:Es.
  - apply last_split_app in Es.
    destruct (Str.last_split "." b) as [[a' b']|] eqn:Ed.
    + apply last_split_app in Ed.
      destruct (forallb (Ascii.eqb ".") a').
      * intros [= <- <-]. symmetry. apply append_empty_r.
      * intros [= <- <-].
        change (String "." (Str.of_chars b')) with (Str.of_chars ("."%char :: b')).
        rewrite <- of_chars_app, <- !app_assoc. simpl.
        rewrite <- Ed, <- Es. symmetry. apply of_chars_chars.
    + intros [= <- <-]. symmetry. apply append_empty_r.
  - destruct (Str.last_split "." (Str.chars p)) as [[a' b']|] eqn:Ed.
    + apply last_split_app in Ed.
      destruct (forallb (Ascii.eqb ".") a').
      * intros [= <- <-]. symmetry. apply append_empty_r.
      * intros [= <- <-].
        change (String "." (Str.of_chars b')) with (Str.of_chars ("."%char :: b')).
        rewrite <- of_chars_app. simpl. rewrite <- Ed.
        symmetry. apply of_chars_chars.
    + intros [= <- <-]. symmetry. apply append_empty_r.
Qed.

(** ** The lookup from ROM names to records *)

Lemma add_game_key m g :
  add_game m g = match app_basename g with Some k => <[k := g]> m | None => m end.
Proof.
  unfold add_game, app_basename.
  destruct (ET.find "ApplicationPath" g) as [ap|]; [|reflexivity].
  destruct (ET.text ap) as [[|c t]|]; reflexivity.
Qed.

Lemma fold_add_game_lookup games m k g :
  fold_left add_game games m !! k = Some g ->
  (In g games /\ app_basename g = Some k) \/ m !! k = Some g.
Proof.
  revert m. induction games as [|x r IH]; simpl; intros m H; [now right|].
  apply IH in H as [[Hin Hk]|H]; [left; auto|].
  rewrite add_game_key in H. destruct (app_basename x) as [k'|] eqn:Ex; [|now right].
  destruct (decide (k' = k)) as [->|Hne].
  - rewrite lookup_insert_eq in H. injection H as ->. left; auto.
  - rewrite lookup_insert_ne in H by assumption. now right.
Qed.

Lemma fold_add_game_last l2 : forall m g k,
  m !! k = Some g ->
  (forall g', In g' l2 -> app_basename g' <> Some k) ->
  fold_left add_game l2 m !! k = Some g.
Proof.
  induction l2 as [|x r IH]; simpl; intros m g k Hm Hno; [assumption|].
  apply IH.
  - rewrite add_game_key. destruct (app_basename x) as [k'|] eqn:Ex; [|assumption].
    rewrite lookup_insert_ne; [assumption|]. intros ->. apply (Hno x); auto.
  - intros g' Hin. apply Hno. now right.
Qed.

(** C10.  Every entry of the lookup is a Game node with a non-empty
    ApplicationPath whose basename is the key; a node without one, or
    with an empty one, is under no key; and of several nodes with the
    same basename the last in document order is the one kept. *)
Theorem rom_map_last_wins (root : element) :
  (forall k g, build_rom_map root !! k = Some g ->
     In g (ET.findall "Game" root) /\
     exists app_path c t,
       ET.find "ApplicationPath" g = Some app_path /\
       ET.text app_path = Some (String c t) /\
       k = OsPath.basename (String c t))
  /\ (forall g, In g (ET.findall "Game" root) ->
        (ET.find "ApplicationPath" g = None
         \/ exists app_path, ET.find "ApplicationPath" g = Some app_path
              /\ (ET.text app_path = None \/ ET.text app_path = Some EmptyString)) ->
        forall k, build_rom_map root !! k <> Some g)
  /\ (forall before g after k,
        ET.findall "Game" root = before ++ g :: after ->
        app_basename g = Some k ->
        (forall g', In g' after -> app_basename g' <> Some k) ->
        build_rom_map root !! k = Some g).
Proof.
  assert (Hfirst : forall k g, build_rom_map root !! k = Some g ->
     In g (ET.findall "Game" root) /\
     exists app_path c t,
       ET.find "ApplicationPath" g = Some app_path /\
       ET.text app_path = Some (String c t) /\
       k = OsPath.basename (String c t)).
  { intros k g H. unfold build_rom_map in H.
    apply fold_add_game_lookup in H as [[Hin Hk]|H]; [|now rewrite lookup_empty in H].
    split; [assumption|]. unfold app_basename in Hk.
    destruct (ET.find "ApplicationPath" g) as [ap|]; [|discriminate].
    destruct (ET.text ap) as [[|c t]|] eqn:Et; try discriminate.
    injection Hk as <-. eauto 6. }
  split; [exact Hfirst|]. split.
  - intros g Hin Hbad k H. apply Hfirst in H as [_ (ap & c & t & Hf & Ht & _)].
    destruct Hbad as [Hn|(ap' & Hf' & [Hn|Hn])]; congruence.
  - intros before g after k Hsplit Hk Hno. unfold build_rom_map.
    rewrite Hsplit, fold_left_app. simpl.
    apply fold_add_game_last; [|assumption].
    rewrite add_game_key, Hk. apply lookup_insert_eq.
Qed.

(** ** Looking fields up in an entry *)

Lemma find_SubElement t e t' x :
  ET.find t (ET.SubElement e t' x) =
  match ET.find t e with
  | Some c => Some c
  | None => if String.eqb t' t then Some (Element t' x []) else None
  end.
Proof.
  destruct e as [pt px pc]. unfold ET.find. simpl.
  induction pc as [|c r IH]; simpl.
  - reflexivity.
  - destruct (String.eqb (ET.tag c) t); [reflexivity|exact IH].
Qed.

Lemma find_SubElement_other t e t' x :
  String.eqb t' t = false -> ET.find t (ET.SubElement e t' x) = ET.find t e.
Proof. intros H. rewrite find_SubElement, H. now destruct (ET.find t e). Qed.

Lemma find_copy_tag t g e tag :
  ET.find t (copy_tag g e tag) =
  match ET.find t e with
  | Some c => Some c
  | None =>
      if String.eqb (Str.lower tag) t then
        match ET.find tag g with
        | Some node =>
            if Str.truthy (ET.text node)
            then Some (Element (Str.lower tag) (ET.text node) [])
            else None
        | None => None
        end
      else None
  end.
Proof.
  unfold copy_tag. destruct (ET.find tag g) as [node|].
  - destruct (Str.truthy (ET.text node)).
    + apply find_SubElement.
    + destruct (ET.find t e); [reflexivity|]. now destruct (String.eqb _ _).
  - destruct (ET.find t e); [reflexivity|]. now destruct (String.eqb _ _).
Qed.

Lemma find_copy_tag_other t g e tag :
  String.eqb (Str.lower tag) t = false ->
  ET.find t (copy_tag g e tag) = ET.find t e.
Proof. intros H. rewrite find_copy_tag, H. now destruct (ET.find t e). Qed.

(** The release date field of the metadata entry *)
Lemma add_metadata_releasedate g name f :
  ET.find "releasedate" (fst (add_metadata g name (path_only f))) =
  match ET.find "ReleaseDate" g with
  | Some rel =>
      match ET.text rel with
      | Some t =>
          if (10 <=? String.length t)%nat then
            Some (Element "releasedate"
                    (Some (Str.remove_char "-" (Str.take 10 t) +:+ "T000000")) [])
          else None
      | None => None
      end
  | None => None
  end.
Proof.
  unfold add_metadata. cbn [fst fold_left].
  set (e1 := ET.SubElement (path_only f) "name" _).
  set (e2 := match ET.find "Notes" g with Some _ => _ | None => _ end).
  set (e3 := copy_tag g (copy_tag g (copy_tag g (copy_tag g e2 _) _) _) _).
  assert (H3 : ET.find "releasedate" e3 = None).
  { unfold e3. rewrite !find_copy_tag_other by reflexivity.
    unfold e2. destruct (ET.find "Notes" g);
      [rewrite find_SubElement_other by reflexivity|];
      unfold e1; rewrite find_SubElement_other by reflexivity; reflexivity. }
  destruct (ET.find "ReleaseDate" g) as [rel|]; [|exact H3].
  destruct (ET.text rel) as [[|c t]|]; try exact H3.
  destruct (10 <=? String.length (String c t))%nat; [|exact H3].
  rewrite find_SubElement, H3. reflexivity.
Qed.

(** ** Running the operations of the script *)

Lemma try_except_logged {A : Type} (m : M A) (msg : exn -> string) (d : A) w :
  (exists a w', m w = (Ok a, w') /\ try_except m (fun e => print (msg e);; ret d) w = (Ok a, w'))
  \/ (exists e w', m w = (Raise e, w') /\
        try_except m (fun e => print (msg e);; ret d) w =
        (Ok d, World (fs w') (cwd w') (trace w' ++ [EvPrint (msg e +:+ Str.newline)]))).
Proof.
  unfold try_except. destruct (m w) as [[a|e] w'] eqn:E.
  - left. eauto.
  - right. exists e, w'. split; reflexivity.
Qed.

Lemma process_image_cover_total src dst w :
  exists ok w', process_image_cover src dst w = (Ok ok, w').
Proof.
  unfold process_image_cover.
  match goal with |- context [try_except ?m (fun e => print (@?msg e);; ret ?d)] =>
    destruct (try_except_logged m msg d w) as [(a & w' & _ & H)|(e & w' & _ & H)] end;
  rewrite H; eauto.
Qed.

Lemma process_image_fanart_total src dst w :
  exists ok w', process_image_fanart src dst w = (Ok ok, w').
Proof.
  unfold process_image_fanart.
  match goal with |- context [try_except ?m (fun e => print (@?msg e);; ret ?d)] =>
    destruct (try_except_logged m msg d w) as [(a & w' & _ & H)|(e & w' & _ & H)] end;
  rewrite H; eauto.
Qed.

Lemma process_image_marquee_total src dst w :
  exists ok w', process_image_marquee src dst w = (Ok ok, w').
Proof.
  unfold process_image_marquee.
  match goal with |- context [try_except ?m (fun e => print (@?msg e);; ret ?d)] =>
    destruct (try_except_logged m msg d w) as [(a & w' & _ & H)|(e & w' & _ & H)] end;
  rewrite H; eauto.
Qed.

Lemma find_image_eq base tf t r w :
  find_image base tf t r w =
  match FS.lookup (fs w) (base ++ [tf]) with
  | Some m =>
      (Ok (first_match (candidates t r) (FS.walk (base ++ [tf]) m)),
       World (fs w) (cwd w)
         (trace w ++ [EvStat (base ++ [tf]); EvScan (base ++ [tf])]))
  | None =>
      (Ok None, World (fs w) (cwd w) (trace w ++ [EvStat (base ++ [tf])]))
  end.
Proof.
  unfold find_image, Os.path_exists, Os.walk, bind, emit, get_fs, ret. simpl.
  destruct (FS.lookup (fs w) (base ++ [tf])) eqn:E; simpl; [|reflexivity].
  now rewrite E, <- app_assoc.
Qed.

Lemma find_image_total base tf t r w :
  exists res w', find_image base tf t r w = (Ok res, w') /\ fs w' = fs w.
Proof.
  rewrite find_image_eq. destruct (FS.lookup _ _); eauto.
Qed.

Section AddArt.
Variables (type_folder tag subdir ext : string).
Variable process : path -> path -> M bool.
Hypothesis process_total :
  forall a b w, exists ok w', process a b w = (Ok ok, w').
Variables (dir : path) (s name rb : string) (ge : element).

Let dest_rel := "./images/" +:+ subdir +:+ "/" +:+ rb +:+ ext.
Let dest_abs := dir ++ ["images"; subdir; rb +:+ ext].

Lemma add_art_spec w :
  exists ge' w',
    add_art type_folder tag subdir ext process dir s name rb ge w = (Ok ge', w')
    /\ ((ge' = ET.SubElement ge tag (Some dest_rel)
         /\ exists src wa,
              find_image dir type_folder s name w = (Ok (Some src), wa)
              /\ process src dest_abs wa = (Ok true, w'))
        \/ (ge' = ge
            /\ ~ exists src wa wb,
                   find_image dir type_folder s name w = (Ok (Some src), wa)
                   /\ process src dest_abs wa = (Ok true, wb))).
Proof.
  unfold add_art, bind.
  destruct (find_image_total dir type_folder s name w) as (res & w1 & Hf & _).
  rewrite Hf. destruct res as [src|].
  - destruct (process_total src dest_abs w1) as (ok & w2 & Hp).
    fold dest_abs. rewrite Hp. destruct ok.
    + exists (ET.SubElement ge tag (Some dest_rel)), w2. split; [reflexivity|].
      left. split; [reflexivity|]. eauto.
    + exists ge, w2. split; [reflexivity|]. right. split; [reflexivity|].
      intros (src' & wa & wb & [= <- <-] & Hp'). congruence.
  - exists ge, w1. split; [reflexivity|]. right. split; [reflexivity|].
    intros (src' & wa & wb & [=] & _).
Qed.
End AddArt.

Lemma add_cover_spec dir s name rb ge w :
  exists ge' w',
    add_cover dir s name rb ge w = (Ok ge', w')
    /\ ((ge' = ET.SubElement ge "image" (Some ("./images/covers/" +:+ rb +:+ ".jpg"))
         /\ exists src wa,
              find_image dir "Front" s name w = (Ok (Some src), wa)
              /\ process_image_cover src (dir ++ ["images"; "covers"; rb +:+ ".jpg"]) wa
                 = (Ok true, w'))
        \/ (ge' = ge
            /\ ~ exists src wa wb,
                   find_image dir "Front" s name w = (Ok (Some src), wa)
                   /\ process_image_cover src (dir ++ ["images"; "covers"; rb +:+ ".jpg"]) wa
                      = (Ok true, wb))).
Proof. apply add_art_spec, process_image_cover_total. Qed.

Lemma add_fanart_spec dir s name rb ge w :
  exists ge' w',
    add_fanart dir s name rb ge w = (Ok ge', w')
    /\ ((ge' = ET.SubElement ge "fanart" (Some ("./images/fanart/" +:+ rb +:+ ".jpg"))
         /\ exists src wa,
              find_image dir "Screenshot" s name w = (Ok (Some src), wa)
              /\ process_image_fanart src (dir ++ ["images"; "fanart"; rb +:+ ".jpg"]) wa
                 = (Ok true, w'))
        \/ (ge' = ge
            /\ ~ exists src wa wb,
                   find_image dir "Screenshot" s name w = (Ok (Some src), wa)
                   /\ process_image_fanart src (dir ++ ["images"; "fanart"; rb +:+ ".jpg"]) wa
                      = (Ok true, wb))).
Proof. apply add_art_spec, process_image_fanart_total. Qed.

Lemma add_marquee_spec dir s name rb ge w :
  exists ge' w',
    add_marquee dir s name rb ge w = (Ok ge', w')
    /\ ((ge' = ET.SubElement ge "marquee" (Some ("./images/marquees/" +:+ rb +:+ ".png"))
         /\ exists src wa,
              find_image dir "Clear Logo" s name w = (Ok (Some src), wa)
              /\ process_image_marquee src (dir ++ ["images"; "marquees"; rb +:+ ".png"]) wa
                 = (Ok true, w'))
        \/ (ge' = ge
            /\ ~ exists src wa wb,
                   find_image dir "Clear Logo" s name w = (Ok (Some src), wa)
                   /\ process_image_marquee src (dir ++ ["images"; "marquees"; rb +:+ ".png"]) wa
                      = (Ok true, wb))).
Proof. apply add_art_spec, process_image_marquee_total. Qed.

Lemma game_entry_matched dir rm f name g w :
  rm !! f = Some g ->
  let e0 := fst (add_metadata g name (path_only f)) in
  let s := sanitize_lb_title (snd (add_metadata g name (path_only f))) in
  let rb := fst (OsPath.splitext f) in
  exists e1 w1 e2 w2 e3 w3,
    add_cover dir s name rb e0 w = (Ok e1, w1)
    /\ add_fanart dir s name rb e1 w1 = (Ok e2, w2)
    /\ add_marquee dir s name rb e2 w2 = (Ok e3, w3)
    /\ game_entry dir rm f name w = (Ok e3, w3).
Proof.
  intros Hg e0 s rb.
  destruct (add_cover_spec dir s name rb e0 w) as (e1 & w1 & H1 & _).
  destruct (add_fanart_spec dir s name rb e1 w1) as (e2 & w2 & H2 & _).
  destruct (add_marquee_spec dir s name rb e2 w2) as (e3 & w3 & H3 & _).
  exists e1, w1, e2, w2, e3, w3. repeat split; try assumption.
  unfold game_entry. rewrite Hg.
  fold (path_only f). subst e0 s rb.
  destruct (add_metadata g name (path_only f)) as [ge ttl] eqn:Em. simpl in *.
  unfold bind. rewrite H1, H2. exact H3.
Qed.

Lemma game_entry_unmatched dir rm f name w :
  rm !! f = None ->
  game_entry dir rm f name w =
  (Ok (Element "game" None
         [Element "path" (Some ("./" +:+ f)) []; Element "name" (Some name) []]),
   w).
Proof. intros H. unfold game_entry. rewrite H. reflexivity. Qed.

Lemma game_entry_total dir rm f name w :
  exists e w', game_entry dir rm f name w = (Ok e, w').
Proof.
  destruct (rm !! f) as [g|] eqn:E.
  - destruct (game_entry_matched dir rm f name g w E)
      as (e1 & w1 & e2 & w2 & e3 & w3 & _ & _ & _ & H). eauto.
  - rewrite game_entry_unmatched by assumption. eauto.
Qed.





Lemma game_entry_other_fields dir rm f name g w e w' t :
  rm !! f = Some g ->
  game_entry dir rm f name w = (Ok e, w') ->
  String.eqb "image" t = false ->
  String.eqb "fanart" t = false ->
  String.eqb "marquee" t = false ->
  ET.find t e = ET.find t (fst (add_metadata g name (path_only f))).
Proof.
  intros Hg He Hi Hf Hm.
  pose proof (game_entry_matched dir rm f name g w Hg) as H. cbv zeta in H.
  set (e0 := fst (add_metadata g name (path_only f))) in *.
  set (s := sanitize_lb_title _) in *. set (rb := fst (OsPath.splitext f)) in *.
  destruct H as (e1 & w1 & e2 & w2 & e3 & w3 & H1 & H2 & H3 & H).
  rewrite H in He. injection He as <- <-.
  destruct (add_cover_spec dir s name rb e0 w) as (x1 & y1 & E1 & D1).
  destruct (add_fanart_spec dir s name rb e1 w1) as (x2 & y2 & E2 & D2).
  destruct (add_marquee_spec dir s name rb e2 w2) as (x3 & y3 & E3 & D3).
  rewrite H1 in E1. rewrite H2 in E2. rewrite H3 in E3.
  injection E1 as <- <-. injection E2 as <- <-. injection E3 as <- <-.
  destruct D3 as [[-> _]|[-> _]]; [rewrite find_SubElement_other by assumption|];
  (destruct D2 as [[-> _]|[-> _]]; [rewrite find_SubElement_other by assumption|]);
  (destruct D1 as [[-> _]|[-> _]]; [rewrite find_SubElement_other by assumption|]);
  reflexivity.
Qed.

(** C5.  The entry of a matched ROM has a releasedate field exactly when
    the record has a ReleaseDate whose text has at least 10 characters;
    its value is then the first 10 characters without dashes followed by
    T000000, so YYYY-MM-DD gives YYYYMMDDT000000. *)
Theorem releasedate_reformatted dir (rom_map : gmap string element) f name g w :
  rom_map !! f = Some g ->
  exists e w',
    game_entry dir rom_map f name w = (Ok e, w')
    /\ (has_field "releasedate" e = true <->
        exists rel t, ET.find "ReleaseDate" g = Some rel
                      /\ ET.text rel = Some t /\ (10 <= String.length t)%nat)
    /\ (forall rel t,
          ET.find "ReleaseDate" g = Some rel -> ET.text rel = Some t ->
          (10 <= String.length t)%nat ->
          ET.find "releasedate" e =
          Some (Element "releasedate"
                  (Some (Str.remove_char "-" (Str.take 10 t) +:+ "T000000")) []))
    /\ (forall rel y1 y2 y3 y4 m1 m2 d1 d2,
          ET.find "ReleaseDate" g = Some rel ->
          ET.text rel =
            Some (Str.of_chars [y1; y2; y3; y4; "-"; m1; m2; "-"; d1; d2]%char) ->
          Forall (fun c => c <> "-"%char) [y1; y2; y3; y4; m1; m2; d1; d2] ->
          ET.find "releasedate" e =
          Some (Element "releasedate"
                  (Some (Str.of_chars [y1; y2; y3; y4; m1; m2; d1; d2]
                         +:+ "T000000")) [])).
Proof.
  intros Hg. destruct (game_entry_total dir rom_map f name w) as (e & w' & He).
  exists e, w'. split; [exact He|].
  assert (Hfind := game_entry_other_fields dir rom_map f name g w e w' "releasedate"
                     Hg He eq_refl eq_refl eq_refl).
  rewrite add_metadata_releasedate in Hfind.
  assert (Hval : forall rel t,
          ET.find "ReleaseDate" g = Some rel -> ET.text rel = Some t ->
          (10 <= String.length t)%nat ->
          ET.find "releasedate" e =
          Some (Element "releasedate"
                  (Some (Str.remove_char "-" (Str.take 10 t) +:+ "T000000")) [])).
  { intros rel t Hr Ht Hl. rewrite Hfind, Hr, Ht.
    apply Nat.leb_le in Hl. now rewrite Hl. }
  split; [|split]; [| exact Hval |].
  - unfold has_field. rewrite Hfind. split.
    + destruct (ET.find "ReleaseDate" g) as [rel|]; [|discriminate].
      destruct (ET.text rel) as [t|] eqn:Et; [|discriminate].
      destruct (10 <=? String.length t)%nat eqn:El; [|discriminate].
      intros _. exists rel, t. apply Nat.leb_le in El. auto.
    + intros (rel & t & -> & -> & Hl). apply Nat.leb_le in Hl. now rewrite Hl.
  - intros rel y1 y2 y3 y4 m1 m2 d1 d2 Hr Ht Hnd.
    rewrite (Hval rel _ Hr Ht) by (simpl; lia).
    repeat match goal with
           | H : Forall _ (_ :: _) |- _ => inversion H; clear H; subst
           end.
    simpl.
    repeat match goal with
           | H : ?c <> "-"%char |- _ =>
               apply Ascii.eqb_neq in H; rewrite H; clear H
           end.
    reflexivity.
Qed.

Lemma find_SubElement_keep t e t' x c :
  ET.find t e = Some c -> ET.find t (ET.SubElement e t' x) = Some c.
Proof. intros H. now rewrite find_SubElement, H. Qed.

Lemma find_copy_tag_keep t g e tag c :
  ET.find t e = Some c -> ET.find t (copy_tag g e tag) = Some c.
Proof. intros H. now rewrite find_copy_tag, H. Qed.


Lemma get_re_sub s i :
  String.get i (re_sub_forbidden s) =
  match String.get i s with
  | Some c => Some (if is_forbidden c then "_"%char else c)
  | None => None
  end.
Proof.
  revert i. induction s as [|c s IH]; intros i; simpl; [reflexivity|].
  destruct i; [reflexivity|apply IH].
Qed.

Lemma is_forbidden_iff c :
  is_forbidden c = true <->
  In c ["<"; ">"; ":"; "034"; "/"; "\"; "|"; "?"; "*"; "'"; "`"]%char.
Proof.
  unfold is_forbidden. rewrite existsb_exists. split.
  - intros (x & Hin & Heq). apply Ascii.eqb_eq in Heq. now subst.
  - intros Hin. exists c. split; [exact Hin|apply Ascii.eqb_refl].
Qed.


(** C8.  A file with a ROM extension and no record under its name gets an
    entry with a path (./ and the file name) and a name (the file name
    without its extension) and nothing else; the only effect is the
    progress line, so no artwork is looked up. *)
Theorem unmatched_rom_minimal dir (rom_map : gmap string element)
    t x c count f w :
  Str.mem (Str.lower (snd (OsPath.splitext f))) game_exts = true ->
  rom_map !! f = None ->
  let name := fst (OsPath.splitext f) in
  process_file dir rom_map (Element t x c, count) f w =
  (Ok (Element t x
         (c ++ [Element "game" None
                  [Element "path" (Some ("./" +:+ f)) [];
                   Element "name" (Some name) []]]),
       S count),
   World (fs w) (cwd w) (trace w ++ [EvPrint ("  Game: " +:+ name +:+ Str.cr)]))
  /\ f = name +:+ snd (OsPath.splitext f).
Proof.
  intros Hext Hnone name. split.
  - unfold process_file. subst name.
    destruct (OsPath.splitext f) as [name ext] eqn:Es. simpl in Hext |- *.
    rewrite Hext. cbn [negb].
    unfold bind, print_end, emit. rewrite game_entry_unmatched by assumption.
    reflexivity.
  - subst name. destruct (OsPath.splitext f) as [name ext] eqn:Es.
    now apply splitext_concat.
Qed.

Lemma unmatched_rom_minimal_witness :
  Str.mem (Str.lower (snd (OsPath.splitext "Other.iso"))) game_exts = true
  /\ build_rom_map Sample.metadata !! "Other.iso" = None
  /\ process_file Sample.genesis_dir (build_rom_map Sample.metadata)
       (Element "gameList" None [], O) "Other.iso" Sample.start
     = (Ok (Element "gameList" None
              [Element "game" None
                 [Element "path" (Some "./Other.iso") [];
                  Element "name" (Some "Other") []]], 1%nat),
        World Sample.tree ["home"] [EvPrint ("  Game: Other" +:+ Str.cr)]).
Proof.
  split; [reflexivity|]. split; [reflexivity|].
  exact (proj1 (unmatched_rom_minimal Sample.genesis_dir
                  (build_rom_map Sample.metadata) "gameList" None [] O
                  "Other.iso" Sample.start eq_refl eq_refl)).
Defined.

Lemma metadata_desc g name f :
  ET.find "desc" (fst (add_metadata g name (path_only f))) =
  match ET.find "Notes" g with
  | Some desc => Some (Element "desc" (ET.text desc) [])
  | None => None
  end.
Proof.
  unfold add_metadata; cbn [fst fold_left].
  set (e1 := ET.SubElement (path_only f) "name" _).
  assert (H1 : ET.find "desc" e1 = None)
    by (unfold e1; now rewrite find_SubElement_other by reflexivity).
  set (e2 := match ET.find "Notes" g with Some _ => _ | None => _ end).
  set (r := match ET.find "Notes" g with Some d => Some _ | None => None end).
  assert (H2 : ET.find "desc" e2 = r).
  { unfold e2, r. destruct (ET.find "Notes" g); [|exact H1].
    now rewrite find_SubElement, H1. }
  set (e3 := copy_tag g (copy_tag g (copy_tag g (copy_tag g e2 _) _) _) _).
  assert (H3 : ET.find "desc" e3 = r)
    by (unfold e3; now rewrite !find_copy_tag_other by reflexivity).
  destruct (ET.find "ReleaseDate" g) as [rel|]; [|exact H3].
  destruct (ET.text rel) as [[|c t]|]; try exact H3.
  destruct (10 <=? String.length (String c t))%nat; [|exact H3].
  now rewrite find_SubElement_other by reflexivity.
Qed.

Lemma find_fold_copy_keep g tags : forall e t c,
  ET.find t e = Some c -> ET.find t (fold_left (copy_tag g) tags e) = Some c.
Proof.
  induction tags as [|a r IH]; simpl; intros e t c H; [exact H|].
  apply IH. now apply find_copy_tag_keep.
Qed.

Lemma find_fold_copy_other g tags : forall e t,
  (forall a, In a tags -> String.eqb (Str.lower a) t = false) ->
  ET.find t (fold_left (copy_tag g) tags e) = ET.find t e.
Proof.
  induction tags as [|a r IH]; simpl; intros e t H; [reflexivity|].
  rewrite IH by auto. apply find_copy_tag_other. auto.
Qed.

Lemma find_fold_copy_tag g tags : forall e tag,
  NoDup (map Str.lower tags) -> In tag tags ->
  ET.find (Str.lower tag) e = None ->
  ET.find (Str.lower tag) (fold_left (copy_tag g) tags e) = copied g tag.
Proof.
  induction tags as [|a r IH]; simpl; intros e tag Hnd Hin Hnone; [contradiction|].
  apply NoDup_cons in Hnd as [Hnotin Hnd].
  destruct (decide (a = tag)) as [->|Hne].
  - assert (Hc : ET.find (Str.lower tag) (copy_tag g e tag) = copied g tag).
    { rewrite find_copy_tag, Hnone, String.eqb_refl. reflexivity. }
    destruct (copied g tag) as [c|] eqn:Ec.
    + now apply find_fold_copy_keep.
    + rewrite find_fold_copy_other; [exact Hc|].
      intros a Ha. apply String.eqb_neq. intros Heq. apply Hnotin.
      rewrite <- Heq. apply list_elem_of_In, in_map, Ha.
  - destruct Hin as [->|Hin]; [contradiction|].
    apply IH; try assumption.
    rewrite find_copy_tag_other; [exact Hnone|].
    apply String.eqb_neq. intros Heq. apply Hnotin.
    rewrite Heq. apply list_elem_of_In, in_map, Hin.
Qed.

Lemma metadata_copied g name f tag :
  In tag ["Developer"; "Publisher"; "Genre"; "MaxPlayers"] ->
  ET.find (Str.lower tag) (fst (add_metadata g name (path_only f))) =
  copied g tag.
Proof.
  intros Hin.
  assert (Hother : forall t, In t ["path"; "name"; "desc"; "releasedate"] ->
                     String.eqb t (Str.lower tag) = false).
  { intros t Ht. simpl in Hin, Ht.
    destruct Hin as [<-|[<-|[<-|[<-|[]]]]];
      destruct Ht as [<-|[<-|[<-|[<-|[]]]]]; reflexivity. }
  unfold add_metadata; cbn [fst].
  set (e1 := ET.SubElement (path_only f) "name" _).
  set (e2 := match ET.find "Notes" g with Some _ => _ | None => _ end).
  assert (H2 : ET.find (Str.lower tag) e2 = None).
  { unfold e2, e1.
    destruct (ET.find "Notes" g);
      [rewrite find_SubElement_other by (apply Hother; simpl; auto)|];
      rewrite find_SubElement_other by (apply Hother; simpl; auto);
      unfold path_only; rewrite find_SubElement_other by (apply Hother; simpl; auto);
      reflexivity. }
  set (e3 := fold_left _ _ e2).
  assert (H3 : ET.find (Str.lower tag) e3 = copied g tag).
  { unfold e3. apply find_fold_copy_tag; try assumption.
    apply (bool_decide_unpack _). vm_compute. reflexivity. }
  destruct (ET.find "ReleaseDate" g) as [rel|]; [|exact H3].
  destruct (ET.text rel) as [[|c t]|]; try exact H3.
  destruct (10 <=? String.length (String c t))%nat; [|exact H3].
  rewrite find_SubElement_other; [exact H3|].
  apply Hother; simpl; auto.
Qed.

Lemma metadata_path g name f :
  ET.find "path" (fst (add_metadata g name (path_only f))) =
  Some (Element "path" (Some ("./" +:+ f)) []).
Proof.
  unfold add_metadata; cbn [fst].
  assert (H0 : ET.find "path" (path_only f) = Some (Element "path" (Some ("./" +:+ f)) []))
    by reflexivity.
  set (e1 := ET.SubElement (path_only f) "name" _).
  assert (H1 : ET.find "path" e1 = Some (Element "path" (Some ("./" +:+ f)) []))
    by (now apply find_SubElement_keep).
  set (e2 := match ET.find "Notes" g with Some _ => _ | None => _ end).
  assert (H2 : ET.find "path" e2 = Some (Element "path" (Some ("./" +:+ f)) [])).
  { unfold e2. destruct (ET.find "Notes" g); [now apply find_SubElement_keep|exact H1]. }
  set (e3 := fold_left _ _ e2).
  assert (H3 : ET.find "path" e3 = Some (Element "path" (Some ("./" +:+ f)) []))
    by (now apply find_fold_copy_keep).
  destruct (ET.find "ReleaseDate" g) as [rel|]; [|exact H3].
  destruct (ET.text rel) as [[|c t]|]; try exact H3.
  destruct (10 <=? String.length (String c t))%nat; [|exact H3].
  now apply find_SubElement_keep.
Qed.

Lemma game_entry_path dir rm f name w e w' :
  game_entry dir rm f name w = (Ok e, w') ->
  ET.find "path" e = Some (Element "path" (Some ("./" +:+ f)) []).
Proof.
  intros He. destruct (rm !! f) as [g|] eqn:Eg.
  - rewrite (game_entry_other_fields dir rm f name g w e w' "path"
               Eg He eq_refl eq_refl eq_refl).
    apply metadata_path.
  - rewrite game_entry_unmatched in He by assumption. now injection He as <- <-.
Qed.

Lemma process_files_all dir rm files : forall t x c n w,
  exists c' w',
    for_each (process_file dir rm) files (Element t x c, n) w
    = (Ok (Element t x (c ++ c'), (n + length c')%nat), w')
    /\ map (ET.find "path") c' =
       map (fun f => Some (Element "path" (Some ("./" +:+ f)) []))
         (List.filter is_rom files).
Proof.
  induction files as [|f r IH]; intros t x c n w.
  - exists [], w. simpl. rewrite app_nil_r, Nat.add_0_r. split; reflexivity.
  - cbn [for_each List.filter]. unfold bind at 1. unfold process_file at 1.
    unfold is_rom at 1.
    destruct (OsPath.splitext f) as [name ext] eqn:Es. cbn [snd].
    destruct (Str.mem (Str.lower ext) game_exts) eqn:Eext; cbn [negb].
    + unfold bind, print_end, emit, ret.
      match goal with |- context [game_entry dir rm f name ?w0] =>
        destruct (game_entry_total dir rm f name w0) as (e & w1 & He) end.
      rewrite He.
      destruct (IH t x (c ++ [e]) (S n) w1) as (c' & w' & Hrun & Hpaths).
      exists (e :: c'), w'. split.
      * rewrite Hrun. rewrite <- app_assoc. simpl.
        now rewrite Nat.add_succ_r.
      * simpl. rewrite Hpaths. f_equal. eapply game_entry_path, He.
    + unfold ret at 1. apply IH.
Qed.








(** ** Walking the file tree *)











Lemma get_launchbox_xml_eq directory w :
  get_launchbox_xml directory w =
  (Ok (launchbox_xml_in (fs w) directory),
   World (fs w) (cwd w) (trace w ++ [EvScan directory])).
Proof. reflexivity. Qed.

Lemma ET_parse_fails p w :
  (forall root, FS.lookup (fs w) p <> Some (File (XmlDoc root))) ->
  exists e, ET_parse p w = (Raise e, World (fs w) (cwd w) (trace w ++ [EvRead p])).
Proof.
  intros Hbad. unfold ET_parse, bind, emit, get_fs, raise, ret. simpl.
  destruct (FS.lookup (fs w) p) as [[[root| |]|es]|] eqn:El; eauto.
  exfalso. eapply Hbad. reflexivity.
Qed.

(** C7.  When the metadata file of a folder does not parse,
    [process_directory] prints the error and returns: the tree is as it
    was, no game was looked at and no gamelist was written; the scan then
    goes on with the next folders from the same tree. *)
Theorem malformed_xml_skips_folder d w lb_xml w1 :
  get_launchbox_xml (cwd w ++ [d]) w = (Ok (Some lb_xml), w1) ->
  (forall root, FS.lookup (fs w) lb_xml <> Some (File (XmlDoc root))) ->
  exists e,
    let logged :=
      [ EvScan (cwd w ++ [d]);
        EvPrint (("Processing: " +:+ d +:+ " (found "
                  +:+ List.last lb_xml EmptyString +:+ ")") +:+ Str.newline);
        EvRead lb_xml;
        EvPrint (("  XML Error: " +:+ exn_str e) +:+ Str.newline) ] in
    process_directory d w = (Ok tt, World (fs w) (cwd w) (trace w ++ logged))
    /\ (forall found rest,
          Str.mem d excludes || Str.startswith d "." = false ->
          for_each scan_dir (d :: rest) found w =
          for_each scan_dir rest (S found)
            (World (fs w) (cwd w)
               (trace w ++ EvScan (cwd w ++ [d]) :: logged))).
Proof.
  intros Hxml Hbad. rewrite get_launchbox_xml_eq in Hxml.
  injection Hxml as Hxml <-.
  set (w1 := World (fs w) (cwd w) (trace w ++ [EvScan (cwd w ++ [d])])).
  set (w2 := World (fs w) (cwd w)
               (trace w1 ++ [EvPrint (("Processing: " +:+ d +:+ " (found "
                  +:+ List.last lb_xml EmptyString +:+ ")") +:+ Str.newline)])).
  destruct (ET_parse_fails lb_xml w2 Hbad) as (e & He).
  exists e. cbv zeta.
  assert (Hpd : forall tr,
            process_directory d (World (fs w) (cwd w) tr) =
            (Ok tt, World (fs w) (cwd w)
               (tr ++ [ EvScan (cwd w ++ [d]);
        EvPrint (("Processing: " +:+ d +:+ " (found "
                  +:+ List.last lb_xml EmptyString +:+ ")") +:+ Str.newline);
        EvRead lb_xml;
        EvPrint (("  XML Error: " +:+ exn_str e) +:+ Str.newline) ]))).
  { intros tr. unfold process_directory, Os.abspath. unfold bind at 1 2.
    unfold get_cwd, ret at 1. cbn [cwd]. unfold bind at 1.
    rewrite get_launchbox_xml_eq. cbn [fs cwd trace]. rewrite Hxml.
    unfold bind at 1. unfold print at 1, emit at 1. cbn [fs cwd trace].
    unfold bind at 1. unfold try_except at 1. unfold bind at 1.
    destruct (ET_parse_fails lb_xml
                (World (fs w) (cwd w)
                   ((tr ++ [EvScan (cwd w ++ [d])]) ++
                    [EvPrint (("Processing: " +:+ d +:+ " (found "
                       +:+ List.last lb_xml EmptyString +:+ ")") +:+ Str.newline)]))
                Hbad) as (e' & He').
    assert (e' = e) as ->.
    { revert He He'. unfold ET_parse, bind, emit, get_fs, raise, ret, w2. simpl.
      destruct (FS.lookup (fs w) lb_xml) as [[[root| |]|es]|]; congruence. }
    rewrite He'. unfold bind, print, emit, ret. cbn [fs cwd trace].
    rewrite <- !app_assoc. reflexivity. }
  split.
  - specialize (Hpd (trace w)). now destruct w.
  - intros found rest Hex. cbn [for_each]. unfold bind at 1.
    unfold scan_dir at 1. rewrite Hex.
    unfold Os.abspath. unfold bind at 1 2. unfold get_cwd, ret at 1.
    unfold bind at 1. rewrite get_launchbox_xml_eq, Hxml.
    unfold bind at 1. rewrite Hpd. unfold ret at 1.
    rewrite <- !app_assoc. reflexivity.
Qed.

(** ** Writing to the file tree *)

Lemma assoc_set_same {A : Type} k (v : A) l : FS.assoc k (FS.set k v l) = Some v.
Proof.
  induction l as [|[k' v'] r IH]; simpl.
  - now rewrite String.eqb_refl.
  - destruct (String.eqb k k') eqn:E; simpl; rewrite E; [reflexivity|exact IH].
Qed.

Lemma put_lookup p : forall n c n',
  FS.put n p c = Some n' -> FS.lookup n' p = Some (File c).
Proof.
  induction p as [|k r IH]; intros n c n' H; [discriminate|].
  destruct n as [c0|es]; [destruct r; discriminate|].
  destruct r as [|k2 r2].
  - simpl in H.
    assert (Hn : n' = Dir (FS.set k (File c) es)).
    { destruct (FS.assoc k es) as [[c1|es1]|]; congruence. }
    subst n'. simpl. now rewrite assoc_set_same.
  - change (match FS.assoc k es with
            | Some m => match FS.put m (k2 :: r2) c with
                        | Some m' => Some (Dir (FS.set k m' es))
                        | None => None
                        end
            | None => None
            end = Some n') in H.
    destruct (FS.assoc k es) as [m|]; [|discriminate].
    destruct (FS.put m (k2 :: r2) c) as [m'|] eqn:Ep; [|discriminate].
    injection H as <-. cbn [FS.lookup]. rewrite assoc_set_same.
    apply (IH _ _ _ Ep).
Qed.

Lemma bind_ok {A B : Type} (m : M A) (k : A -> M B) w b w' :
  bind m k w = (Ok b, w') ->
  exists a w1, m w = (Ok a, w1) /\ k a w1 = (Ok b, w').
Proof.
  unfold bind. destruct (m w) as [[a|e] w1]; [eauto|discriminate].
Qed.

Lemma Image_open_ok p w im w1 :
  Image_open p w = (Ok im, w1) ->
  exists e, picture_at (fs w) p = Some e
    /\ im = PIL.Image (PIL.size (PIL.picture e)) (PIL.mode (PIL.picture e))
              (PIL.orientation (PIL.picture e)) (PIL.full (PIL.size (PIL.picture e)))
    /\ fs w1 = fs w.
Proof.
  unfold Image_open, picture_at, bind, emit, get_fs, raise, ret. simpl.
  destruct (FS.lookup (fs w) p) as [[[root|e|]|es]|]; try discriminate.
  intros [= <- <-]. eauto.
Qed.

Lemma Image_save_ok im p format q o w w1 :
  Image_save im p format q o w = (Ok tt, w1) ->
  picture_at (fs w1) p =
  Some (PIL.Encoded format q o
          (PIL.Image (PIL.size im) (PIL.mode im) None (PIL.kept im))).
Proof.
  unfold Image_save, Os.write_file, picture_at, bind, emit, get_fs, set_fs, raise, ret.
  destruct (Str.mem _ _); [|discriminate]. simpl.
  destruct (FS.put (fs w) p _) as [n'|] eqn:Ep; [|discriminate].
  intros [= <-]. simpl. now rewrite (put_lookup _ _ _ _ Ep).
Qed.

Lemma try_except_true (m : M bool) h w w' :
  (forall e w0, exists w1, h e w0 = (Ok false, w1)) ->
  try_except m h w = (Ok true, w') -> m w = (Ok true, w').
Proof.
  intros Hh. unfold try_except. destruct (m w) as [[a|e] w1]; [trivial|].
  destruct (Hh e w1) as (w2 & ->). discriminate.
Qed.

Lemma resize_ok im sz b out :
  PIL.resize im sz (Some b) = Ok out ->
  PIL.size out = sz /\ PIL.mode out = PIL.mode im /\ PIL.kept out = b
  /\ let '(l, t, r, d) := b in
     (0 <= l /\ 0 <= t /\ r <= inject_Z (PIL.width im)
      /\ d <= inject_Z (PIL.height im))%Q.
Proof.
  unfold PIL.resize. destruct b as [[[l t] r] d].
  destruct ((fst sz <? 1)%Z || (snd sz <? 1)%Z); [discriminate|].
  destruct (Qle_bool 0 l) eqn:E1; [|discriminate].
  destruct (Qle_bool 0 t) eqn:E2; [|discriminate]. cbn [andb negb].
  destruct (Qle_bool r _) eqn:E3; [|discriminate].
  destruct (Qle_bool d _) eqn:E4; [|discriminate]. cbn [andb negb].
  destruct (Qle_bool l r && Qle_bool t d); [|discriminate]. cbn [negb].
  intros [= <-]. cbn. repeat split; try reflexivity; now apply Qle_bool_iff.
Qed.

Lemma inject_Z_nonzero z : z <> 0%Z -> ~ inject_Z z == 0.
Proof. intros Hz H. apply Hz. unfold Qeq in H. simpl in H. lia. Qed.

Lemma fit_box_centred live target b :
  (0 < fst target)%Z -> (0 < snd target)%Z ->
  PIL.fit_box live target (1 # 2, 1 # 2) = Ok b ->
  let '(l, t, r, d) := b in
  (r - l) * inject_Z (snd target) == (d - t) * inject_Z (fst target)
  /\ l == inject_Z (fst live) - r
  /\ t == inject_Z (snd live) - d
  /\ (l == 0 \/ t == 0).
Proof.
  intros HW HH. unfold PIL.fit_box.
  destruct (snd live =? 0)%Z eqn:Eh; [discriminate|].
  apply Z.eqb_neq in Eh.
  destruct (snd target =? 0)%Z; [discriminate|]. cbn [orb].
  pose proof (inject_Z_nonzero (snd live) Eh) as Hlh.
  assert (HWq : ~ inject_Z (fst target) == 0) by (apply inject_Z_nonzero; lia).
  assert (HHq : ~ inject_Z (snd target) == 0) by (apply inject_Z_nonzero; lia).
  set (lw := inject_Z (fst live)) in *. set (lh := inject_Z (snd live)) in *.
  set (W := inject_Z (fst target)) in *. set (H := inject_Z (snd target)) in *.
  unfold PIL.crop_at. cbn [fst snd]. fold lw lh.
  destruct (Qeq_bool (lw / lh) (W / H)) eqn:E1.
  - apply Qeq_bool_iff in E1. intros [= <-].
    assert (Hlw : lw == W / H * lh).
    { rewrite <- E1. field. exact Hlh. }
    repeat split.
    + rewrite Hlw. field. exact HHq.
    + field.
    + field.
    + left. field.
  - destruct (Qle_bool (W / H) (lw / lh)).
    + intros [= <-]. repeat split.
      * field. exact HHq.
      * field. exact HHq.
      * field.
      * right. field.
    + destruct (Qeq_bool (W / H) 0) eqn:E0; [discriminate|].
      intros [= <-]. repeat split.
      * field. split; assumption.
      * field.
      * field. split; assumption.
      * left. field.
Qed.

Lemma handler_false (msg : exn -> string) e w0 :
  exists w1, (print (msg e);; ret false) w0 = (Ok false, w1).
Proof. unfold bind, print, emit, ret. eauto. Qed.

Lemma to_rgb_mode im : PIL.mode (to_rgb im) = "RGB".
Proof.
  unfold to_rgb. destruct (String.eqb (PIL.mode im) "RGB") eqn:E; simpl.
  - now apply String.eqb_eq.
  - reflexivity.
Qed.

Lemma to_rgb_size im : PIL.size (to_rgb im) = PIL.size im.
Proof. unfold to_rgb. now destruct (negb _). Qed.

Lemma exif_transpose_size s m o k k' :
  PIL.size (PIL.exif_transpose (PIL.Image s m o k)) =
  PIL.size (PIL.exif_transpose (PIL.Image s m o k')).
Proof.
  unfold PIL.exif_transpose. simpl. destruct o as [o|]; [|reflexivity].
  destruct ((5 <=? o)%Z && (o <=? 8)%Z); [reflexivity|].
  now destruct ((2 <=? o)%Z && (o <=? 4)%Z).
Qed.

Lemma lift_ok {A : Type} (r : result A) w a w1 :
  lift r w = (Ok a, w1) -> r = Ok a /\ w1 = w.
Proof. unfold lift. now intros [= -> ->]. Qed.

Lemma makedirs_then_save im p d format q o w w' :
  (Os.makedirs d;; Image_save im p format q o;; ret true) w = (Ok true, w') ->
  picture_at (fs w') p =
  Some (PIL.Encoded format q o
          (PIL.Image (PIL.size im) (PIL.mode im) None (PIL.kept im))).
Proof.
  intros H. apply bind_ok in H as ([] & w1 & _ & H).
  apply bind_ok in H as ([] & w2 & Hs & H).
  injection H as <-. eapply Image_save_ok, Hs.
Qed.

(** C2.  When [process_image_fanart] reports success, the file written at
    the destination is a JPEG of quality 80, optimized, in mode RGB, of
    size 1280 by 720 whatever the size of the source; the part of the
    upright source it shows has the proportions 1280 to 720, is centred,
    and drops pixels along one axis at most. *)
Theorem fanart_exact_size src dst w w' :
  process_image_fanart src dst w = (Ok true, w') ->
  exists e out,
    picture_at (fs w) src = Some e
    /\ picture_at (fs w') dst = Some (PIL.Encoded "JPEG" (Some 80%Z) true out)
    /\ PIL.size out = (1280, 720)%Z
    /\ PIL.mode out = "RGB"
    /\ centred_cover_crop (PIL.kept out)
         (PIL.size (PIL.exif_transpose (PIL.picture e))) (1280, 720)%Z.
Proof.
  unfold process_image_fanart. intros H.
  apply try_except_true in H;
    [|intros e w0; apply (handler_false
        (fun e => "Error processing fanart " +:+ path_str src +:+ ": " +:+ exn_str e))].
  apply bind_ok in H as (img0 & w1 & Hopen & H).
  apply Image_open_ok in Hopen as (e & Hsrc & -> & _).
  apply bind_ok in H as (fitted & w2 & Hfit & H).
  apply lift_ok in Hfit as [Hfit ->].
  apply makedirs_then_save in H.
  set (up := to_rgb (PIL.exif_transpose _)) in Hfit.
  unfold PIL.fit in Hfit.
  destruct (PIL.fit_box (PIL.size up) TARGET_RES_FANART (1 # 2, 1 # 2))
    as [crop|] eqn:Ebox; [|discriminate].
  apply resize_ok in Hfit as (Hsize & Hmode & Hkept & Hin).
  apply fit_box_centred in Ebox; [|reflexivity|reflexivity].
  exists e, (PIL.Image (PIL.size fitted) (PIL.mode fitted) None (PIL.kept fitted)).
  split; [exact Hsrc|]. split; [exact H|]. cbn [PIL.size PIL.mode PIL.kept].
  split; [exact Hsize|]. split; [rewrite Hmode; apply to_rgb_mode|].
  assert (Hup : PIL.size up = PIL.size (PIL.exif_transpose (PIL.picture e))).
  { unfold up. rewrite to_rgb_size. destruct (PIL.picture e) as [s m o k].
    apply exif_transpose_size. }
  rewrite Hkept. unfold centred_cover_crop. destruct crop as [[[l t] r] d].
  unfold PIL.width, PIL.height in Hin. rewrite Hup in Hin, Ebox.
  cbn [fst snd TARGET_RES_FANART] in *. tauto.
Qed.

(** ** Image.thumbnail *)
















Lemma fanart_exact_size_witness :
  let w' := snd (process_image_fanart Sample.shot_src Sample.fanart_dest
                   Sample.start) in
  process_image_fanart Sample.shot_src Sample.fanart_dest Sample.start
  = (Ok true, w')
  /\ exists e out,
       picture_at (fs Sample.start) Sample.shot_src = Some e
       /\ picture_at (fs w') Sample.fanart_dest
          = Some (PIL.Encoded "JPEG" (Some 80%Z) true out)
       /\ PIL.size out = (1280, 720)%Z
       /\ PIL.mode out = "RGB"
       /\ centred_cover_crop (PIL.kept out)
            (PIL.size (PIL.exif_transpose (PIL.picture e))) (1280, 720)%Z.
Proof.
  intros w'.
  assert (H : process_image_fanart Sample.shot_src Sample.fanart_dest Sample.start
              = (Ok true, w')) by (vm_compute; reflexivity).
  split; [exact H|]. exact (fanart_exact_size _ _ _ _ H).
Defined.

Lemma releasedate_reformatted_witness :
  build_rom_map Sample.metadata !! "Sonic.bin" = Some Sample.sonic
  /\ exists e w',
       game_entry Sample.genesis_dir (build_rom_map Sample.metadata)
         "Sonic.bin" "Sonic" Sample.start = (Ok e, w')
       /\ ET.find "releasedate" e =
          Some (Element "releasedate" (Some "19910623T000000") []).
Proof.
  split; [reflexivity|].
  destruct (releasedate_reformatted Sample.genesis_dir
              (build_rom_map Sample.metadata) "Sonic.bin" "Sonic" Sample.sonic
              Sample.start eq_refl) as (e & w' & He & _ & Hval & _).
  exists e, w'. split; [exact He|].
  rewrite (Hval (Sample.leaf "ReleaseDate" "1991-06-23T00:00:00")
             "1991-06-23T00:00:00" eq_refl eq_refl) by (simpl; lia).
  reflexivity.
Defined.



Lemma malformed_xml_skips_folder_witness :
  let lb_xml := ["home"; "Broken"; "export.xml"] in
  get_launchbox_xml (cwd Sample.start ++ ["Broken"]) Sample.start
  = (Ok (Some lb_xml),
     World Sample.tree ["home"] [EvScan ["home"; "Broken"]])
  /\ (forall root, FS.lookup (fs Sample.start) lb_xml <> Some (File (XmlDoc root)))
  /\ exists tr,
       process_directory "Broken" Sample.start
       = (Ok tt, World Sample.tree ["home"] tr).
Proof.
  intros lb_xml.
  assert (H1 : get_launchbox_xml (cwd Sample.start ++ ["Broken"]) Sample.start
               = (Ok (Some lb_xml),
                  World Sample.tree ["home"] [EvScan ["home"; "Broken"]]))
    by reflexivity.
  assert (H2 : forall root,
             FS.lookup (fs Sample.start) lb_xml <> Some (File (XmlDoc root)))
    by (intros root; discriminate).
  split; [exact H1|]. split; [exact H2|].
  destruct (malformed_xml_skips_folder "Broken" Sample.start lb_xml _ H1 H2)
    as (e & Hpd & _).
  eexists. exact Hpd.
Defined.

Lemma rom_map_last_wins_witness :
  ET.findall "Game" Sample.metadata
  = [Sample.sonic_old; Sample.nameless] ++ Sample.sonic :: []
  /\ app_basename Sample.sonic = Some "Sonic.bin"
  /\ app_basename Sample.sonic_old = Some "Sonic.bin"
  /\ build_rom_map Sample.metadata !! "Sonic.bin" = Some Sample.sonic
  /\ (forall k, build_rom_map Sample.metadata !! k <> Some Sample.nameless).
Proof.
  destruct (rom_map_last_wins Sample.metadata) as (_ & Hnever & Hlast).
  split; [reflexivity|]. split; [reflexivity|]. split; [reflexivity|]. split.
  - apply (Hlast [Sample.sonic_old; Sample.nameless] Sample.sonic []);
      [reflexivity|reflexivity|]. intros g' [].
  - apply Hnever.
    + simpl. auto.
    + right. eexists. split; [reflexivity|]. now left.
Defined.

(** C6, at the failing input.  The sample record has an empty Notes and
    an empty Publisher element: the entry gets an empty desc field, and no
    publisher field. *)
Theorem empty_notes_still_emit_desc :
  ET.find "Notes" Sample.sonic = Some (Element "Notes" None [])
  /\ ET.find "Publisher" Sample.sonic = Some (Element "Publisher" None [])
  /\ build_rom_map Sample.metadata !! "Sonic.bin" = Some Sample.sonic
  /\ exists e w',
       game_entry Sample.genesis_dir (build_rom_map Sample.metadata)
         "Sonic.bin" "Sonic" Sample.start = (Ok e, w')
       /\ ET.find "desc" e = Some (Element "desc" None [])
       /\ ET.find "publisher" e = None.
Proof.
  split; [reflexivity|]. split; [reflexivity|]. split; [reflexivity|].
  eexists. eexists. split; [vm_compute; reflexivity|].
  split; reflexivity.
Qed.

(** The metadata fields of a matched entry: the description is copied
    whenever the Notes element is present, the four looped tags only when
    their text is non-empty. *)
Lemma metadata_fields_copied dir (rom_map : gmap string element) f name g w :
  rom_map !! f = Some g ->
  exists e w',
    game_entry dir rom_map f name w = (Ok e, w')
    /\ ET.find "desc" e =
       match ET.find "Notes" g with
       | Some desc => Some (Element "desc" (ET.text desc) [])
       | None => None
       end
    /\ (forall tag, In tag ["Developer"; "Publisher"; "Genre"; "MaxPlayers"] ->
        ET.find (Str.lower tag) e = copied g tag).
Proof.
  intros Hg. destruct (game_entry_total dir rom_map f name w) as (e & w' & He).
  exists e, w'. split; [exact He|]. split.
  - rewrite (game_entry_other_fields dir rom_map f name g w e w' "desc"
               Hg He eq_refl eq_refl eq_refl).
    apply metadata_desc.
  - intros tag Hin.
    rewrite (game_entry_other_fields dir rom_map f name g w e w' (Str.lower tag)
               Hg He); [now apply metadata_copied| | |];
      simpl in Hin; destruct Hin as [<-|[<-|[<-|[<-|[]]]]]; reflexivity.
Qed.

(** * Further properties of the script *)

(** ** Frames: what an operation leaves alone *)

Lemma assoc_set_other {A : Type} k k' (v : A) l :
  k' <> k -> FS.assoc k' (FS.set k v l) = FS.assoc k' l.
Proof.
  intros Hne. induction l as [|[k0 v0] r IH]; simpl.
  - destruct (String.eqb k' k) eqn:E; [apply String.eqb_eq in E; congruence|reflexivity].
  - destruct (String.eqb k k0) eqn:E0; simpl.
    + apply String.eqb_eq in E0. subst k0.
      destruct (String.eqb k' k) eqn:E; [apply String.eqb_eq in E; congruence|reflexivity].
    + destruct (String.eqb k' k0); [reflexivity|exact IH].
Qed.

Lemma put_cons k r n c :
  r <> [] ->
  FS.put n (k :: r) c =
  match n with
  | Dir es =>
      match FS.assoc k es with
      | Some m => match FS.put m r c with
                  | Some m' => Some (Dir (FS.set k m' es))
                  | None => None
                  end
      | None => None
      end
  | File _ => None
  end.
Proof. intros Hr. destruct r; [contradiction|]. destruct n; reflexivity. Qed.

Lemma put_single k n c :
  FS.put n [k] c =
  match n with
  | Dir es =>
      match FS.assoc k es with
      | Some (Dir _) => None
      | _ => Some (Dir (FS.set k (File c) es))
      end
  | File _ => None
  end.
Proof. destruct n; reflexivity. Qed.

Lemma lookup_put_diverge c : forall n a b r1 r2 x n',
  a <> b ->
  FS.put n (c ++ b :: r2) x = Some n' ->
  FS.lookup n' (c ++ a :: r1) = FS.lookup n (c ++ a :: r1).
Proof.
  induction c as [|k c IH]; intros n a b r1 r2 x n' Hab Hput.
  - cbn [app] in *. destruct n as [c0|es]; [destruct r2; discriminate|].
    assert (exists v, n' = Dir (FS.set b v es)) as [v ->].
    { destruct r2 as [|k2 r2].
      - rewrite put_single in Hput.
        destruct (FS.assoc b es) as [[?|?]|]; try discriminate;
          injection Hput as <-; eauto.
      - rewrite put_cons in Hput by discriminate.
        destruct (FS.assoc b es); [|discriminate].
        destruct (FS.put _ _ _); [|discriminate]. injection Hput as <-. eauto. }
    simpl. now rewrite assoc_set_other.
  - rewrite <- app_comm_cons in Hput. rewrite put_cons in Hput by (now destruct c).
    destruct n as [c0|es]; [discriminate|].
    destruct (FS.assoc k es) as [m|] eqn:Ea; [|discriminate].
    destruct (FS.put m (c ++ b :: r2) x) as [m'|] eqn:Ep; [|discriminate].
    injection Hput as <-. simpl. rewrite assoc_set_same, Ea.
    eapply IH; eassumption.
Qed.

Lemma lookup_mkdirs_diverge c : forall n a b r1 r2 n',
  a <> b ->
  FS.mkdirs n (c ++ b :: r2) = Some n' ->
  FS.lookup n' (c ++ a :: r1) = FS.lookup n (c ++ a :: r1).
Proof.
  induction c as [|k c IH]; intros n a b r1 r2 n' Hab Hmk.
  - simpl in *. destruct n as [c0|es]; [discriminate|].
    destruct (FS.mkdirs _ r2) as [m'|]; [|discriminate].
    injection Hmk as <-. simpl. now rewrite assoc_set_other.
  - simpl in Hmk. destruct n as [c0|es]; [discriminate|].
    destruct (FS.mkdirs _ (c ++ b :: r2)) as [m'|] eqn:Em; [|discriminate].
    injection Hmk as <-. simpl. rewrite assoc_set_same.
    rewrite (IH _ a b r1 r2 m' Hab Em).
    destruct (FS.assoc k es) as [m|]; [reflexivity|].
    destruct c; simpl; reflexivity.
Qed.

(** Directories created by [mkdirs] are empty: below the path nothing
    appears or changes. *)
Lemma lookup_mkdirs_below p : forall n a r n',
  FS.mkdirs n p = Some n' ->
  FS.lookup n' (p ++ a :: r) = FS.lookup n (p ++ a :: r).
Proof.
  induction p as [|k p IH]; intros n a r n' Hmk.
  - simpl in Hmk. destruct n; [discriminate|]. now injection Hmk as <-.
  - simpl in Hmk. destruct n as [c0|es]; [discriminate|].
    destruct (FS.mkdirs _ p) as [m'|] eqn:Em; [|discriminate].
    injection Hmk as <-. simpl. rewrite assoc_set_same.
    rewrite (IH _ a r m' Em).
    destruct (FS.assoc k es) as [m|]; [reflexivity|].
    destruct p; simpl; reflexivity.
Qed.

Section Respects.
Variable R : world -> world -> Prop.
Hypothesis R_refl : forall w, R w w.
Hypothesis R_trans : forall a b c, R a b -> R b c -> R a c.
Hypothesis R_trace : forall w tr, R w (World (fs w) (cwd w) tr).

Lemma respects_ret {A : Type} (a : A) : respects R (ret a).
Proof. intros w r w' [= _ <-]. apply R_refl. Qed.

Lemma respects_raise {A : Type} e : respects R (@raise A e).
Proof. intros w r w' [= _ <-]. apply R_refl. Qed.

Lemma respects_lift {A : Type} (x : result A) : respects R (lift x).
Proof. intros w r w' [= _ <-]. apply R_refl. Qed.

Lemma respects_emit e : respects R (emit e).
Proof. intros w r w' [= _ <-]. apply R_trace. Qed.

Lemma respects_get_fs : respects R get_fs.
Proof. intros w r w' [= _ <-]. apply R_refl. Qed.

Lemma respects_get_cwd : respects R get_cwd.
Proof. intros w r w' [= _ <-]. apply R_refl. Qed.

Lemma respects_bind {A B : Type} (m : M A) (k : A -> M B) :
  respects R m -> (forall a, respects R (k a)) -> respects R (bind m k).
Proof.
  intros Hm Hk w r w'. unfold bind. destruct (m w) as [[a|e] w1] eqn:E.
  - intros H. eapply R_trans; [eapply Hm, E|eapply Hk, H].
  - intros [= _ <-]. eapply Hm, E.
Qed.

Lemma respects_try {A : Type} (m : M A) (h : exn -> M A) :
  respects R m -> (forall e, respects R (h e)) -> respects R (try_except m h).
Proof.
  intros Hm Hh w r w'. unfold try_except. destruct (m w) as [[a|e] w1] eqn:E.
  - intros [= _ <-]. eapply Hm, E.
  - intros H. eapply R_trans; [eapply Hm, E|eapply Hh, H].
Qed.

Lemma respects_for_each {A B : Type} (body : B -> A -> M B) l :
  (forall acc x, In x l -> respects R (body acc x)) ->
  forall acc, respects R (for_each body l acc).
Proof.
  induction l as [|x l IH]; intros Hb acc; simpl.
  - apply respects_ret.
  - apply respects_bind; [apply Hb; now left|].
    intros acc'. apply IH. intros a y Hy. apply Hb. now right.
Qed.

Lemma respects_filter_m {A : Type} (test : A -> M bool) l :
  (forall x, respects R (test x)) -> respects R (filter_m test l).
Proof.
  intros Ht. induction l as [|x l IH]; simpl.
  - apply respects_ret.
  - apply respects_bind; [apply Ht|]. intros b.
    apply respects_bind; [exact IH|]. intros r'. apply respects_ret.
Qed.

Lemma respects_print s : respects R (print s).
Proof. apply respects_emit. Qed.

Lemma respects_print_end s e : respects R (print_end s e).
Proof. apply respects_emit. Qed.

Lemma respects_input s : respects R (input s).
Proof. apply respects_emit. Qed.

(** Reading operations *)
Lemma respects_path_exists p : respects R (Os.path_exists p).
Proof.
  apply respects_bind; [apply respects_emit|]. intros _.
  apply respects_bind; [apply respects_get_fs|]. intros n. apply respects_ret.
Qed.

Lemma respects_isfile p : respects R (Os.isfile p).
Proof.
  apply respects_bind; [apply respects_emit|]. intros _.
  apply respects_bind; [apply respects_get_fs|]. intros n. apply respects_ret.
Qed.

Lemma respects_isdir p : respects R (Os.isdir p).
Proof.
  apply respects_bind; [apply respects_emit|]. intros _.
  apply respects_bind; [apply respects_get_fs|]. intros n. apply respects_ret.
Qed.

Lemma respects_listdir p : respects R (Os.listdir p).
Proof.
  apply respects_bind; [apply respects_emit|]. intros _.
  apply respects_bind; [apply respects_get_fs|]. intros n.
  destruct (FS.lookup n p) as [[c|es]|];
    [apply respects_raise|apply respects_ret|apply respects_raise].
Qed.

Lemma respects_walk p : respects R (Os.walk p).
Proof.
  apply respects_bind; [apply respects_emit|]. intros _.
  apply respects_bind; [apply respects_get_fs|]. intros n. apply respects_ret.
Qed.

Lemma respects_glob p s : respects R (Os.glob_suffix p s).
Proof.
  apply respects_bind; [apply respects_emit|]. intros _.
  apply respects_bind; [apply respects_get_fs|]. intros n. apply respects_ret.
Qed.

Lemma respects_abspath d : respects R (Os.abspath d).
Proof.
  apply respects_bind; [apply respects_get_cwd|]. intros c. apply respects_ret.
Qed.

Lemma respects_ET_parse p : respects R (ET_parse p).
Proof.
  apply respects_bind; [apply respects_emit|]. intros _.
  apply respects_bind; [apply respects_get_fs|]. intros n.
  destruct (FS.lookup n p) as [[[root|e|]|es]|];
    first [apply respects_raise|apply respects_ret].
Qed.

Lemma respects_Image_open p : respects R (Image_open p).
Proof.
  apply respects_bind; [apply respects_emit|]. intros _.
  apply respects_bind; [apply respects_get_fs|]. intros n.
  destruct (FS.lookup n p) as [[[root|e|]|es]|];
    first [apply respects_raise|apply respects_ret].
Qed.

Lemma respects_find_image base tf t r : respects R (find_image base tf t r).
Proof.
  apply respects_bind; [apply respects_path_exists|]. intros found.
  destruct (negb found); [apply respects_ret|].
  apply respects_bind; [apply respects_walk|]. intros walked. apply respects_ret.
Qed.

Lemma respects_get_launchbox_xml p : respects R (get_launchbox_xml p).
Proof.
  apply respects_bind; [apply respects_glob|]. intros l. apply respects_ret.
Qed.

End Respects.

Section RespectsWrites.
Variable R : world -> world -> Prop.
Hypothesis R_refl : forall w, R w w.
Hypothesis R_trans : forall a b c, R a b -> R b c -> R a c.
Hypothesis R_trace : forall w tr, R w (World (fs w) (cwd w) tr).
Variable dst : path.
Hypothesis R_mkdirs : forall w n' tr,
  FS.mkdirs (fs w) (dirname dst) = Some n' -> R w (World n' (cwd w) tr).
Hypothesis R_put : forall w c n' tr,
  FS.put (fs w) dst c = Some n' -> R w (World n' (cwd w) tr).

Lemma respects_makedirs : respects R (Os.makedirs (dirname dst)).
Proof.
  intros w r w'. unfold Os.makedirs, bind, emit, get_fs, set_fs, raise. simpl.
  destruct (FS.mkdirs (fs w) (dirname dst)) as [n'|] eqn:E.
  - intros [= _ <-]. now apply R_mkdirs.
  - intros [= _ <-]. apply R_trace.
Qed.

Lemma respects_write_file c : respects R (Os.write_file dst c).
Proof.
  intros w r w'. unfold Os.write_file, bind, emit, get_fs, set_fs, raise. simpl.
  destruct (FS.put (fs w) dst c) as [n'|] eqn:E.
  - intros [= _ <-]. now apply (R_put w c).
  - intros [= _ <-]. apply R_trace.
Qed.

Lemma respects_Image_save im format q o :
  respects R (Image_save im dst format q o).
Proof.
  unfold Image_save. destruct (Str.mem _ _);
    [apply respects_write_file|now apply respects_raise].
Qed.

Lemma respects_save_tail im format q o :
  respects R (Os.makedirs (dirname dst);; Image_save im dst format q o;; ret true).
Proof.
  apply respects_bind; [assumption|apply respects_makedirs|]. intros _.
  apply respects_bind; [assumption|apply respects_Image_save|]. intros _.
  now apply respects_ret.
Qed.

Lemma respects_handler (msg : exn -> string) e :
  respects R (print (msg e);; ret false).
Proof.
  apply respects_bind; [assumption|now apply respects_print|]. intros _.
  now apply respects_ret.
Qed.

Lemma respects_process_image_cover src :
  respects R (process_image_cover src dst).
Proof.
  unfold process_image_cover. apply respects_try; [assumption| |].
  - apply respects_bind; [assumption|now apply respects_Image_open|]. intros img.
    apply respects_bind; [assumption|now apply respects_lift|]. intros img'.
    apply respects_save_tail.
  - intros e. apply (respects_handler
      (fun e => "Error processing cover " +:+ path_str src +:+ ": " +:+ exn_str e)).
Qed.

Lemma respects_process_image_fanart src :
  respects R (process_image_fanart src dst).
Proof.
  unfold process_image_fanart. apply respects_try; [assumption| |].
  - apply respects_bind; [assumption|now apply respects_Image_open|]. intros img.
    apply respects_bind; [assumption|now apply respects_lift|]. intros img'.
    apply respects_save_tail.
  - intros e. apply (respects_handler
      (fun e => "Error processing fanart " +:+ path_str src +:+ ": " +:+ exn_str e)).
Qed.

Lemma respects_process_image_marquee src :
  respects R (process_image_marquee src dst).
Proof.
  unfold process_image_marquee. apply respects_try; [assumption| |].
  - apply respects_bind; [assumption|now apply respects_Image_open|]. intros img.
    apply respects_bind; [assumption|now apply respects_lift|]. intros img'.
    apply respects_save_tail.
  - intros e. apply (respects_handler
      (fun e => "Error processing marquee " +:+ path_str src +:+ ": " +:+ exn_str e)).
Qed.

End RespectsWrites.

Lemma file_at_put p : forall n c n' q,
  FS.put n p c = Some n' ->
  file_at n' q = if decide (q = p) then Some c else file_at n q.
Proof.
  induction p as [|k r IH]; intros n c n' q Hput; [discriminate|].
  destruct n as [c0|es]; [destruct r; discriminate|].
  destruct q as [|k' r'].
  - rewrite decide_False by discriminate.
    unfold file_at. simpl.
    destruct r as [|k2 r2].
    + rewrite put_single in Hput.
      destruct (FS.assoc k es) as [[?|?]|]; try discriminate;
        now injection Hput as <-.
    + rewrite put_cons in Hput by discriminate.
      destruct (FS.assoc k es); [|discriminate].
      destruct (FS.put _ _ _); [|discriminate]. now injection Hput as <-.
  - destruct (decide (k' = k)) as [->|Hk].
    + destruct r as [|k2 r2].
      * rewrite put_single in Hput.
        assert (Hn : n' = Dir (FS.set k (File c) es)
                     /\ (forall es', FS.assoc k es <> Some (Dir es'))).
        { destruct (FS.assoc k es) as [[?|?]|]; try discriminate;
            injection Hput as <-; split; congruence. }
        destruct Hn as [-> Hnd]. unfold file_at. simpl. rewrite assoc_set_same.
        destruct r' as [|k3 r3].
        -- now rewrite decide_True by reflexivity.
        -- rewrite decide_False by discriminate. simpl.
           destruct (FS.assoc k es) as [[?|es']|]; try reflexivity.
           exfalso. now apply (Hnd es').
      * rewrite put_cons in Hput by discriminate.
        destruct (FS.assoc k es) as [m|] eqn:Ea; [|discriminate].
        destruct (FS.put m (k2 :: r2) c) as [m'|] eqn:Ep; [|discriminate].
        injection Hput as <-. unfold file_at. simpl. rewrite assoc_set_same, Ea.
        specialize (IH m c m' r' Ep). unfold file_at in IH. rewrite IH.
        destruct (decide (r' = k2 :: r2)) as [->|Hne].
        -- now rewrite !decide_True by reflexivity.
        -- now rewrite !decide_False by congruence.
    + rewrite decide_False by congruence.
      assert (exists v, n' = Dir (FS.set k v es)) as [v ->].
      { destruct r as [|k2 r2].
        - rewrite put_single in Hput.
          destruct (FS.assoc k es) as [[?|?]|]; try discriminate;
            injection Hput as <-; eauto.
        - rewrite put_cons in Hput by discriminate.
          destruct (FS.assoc k es); [|discriminate].
          destruct (FS.put _ _ _); [|discriminate]. injection Hput as <-. eauto. }
      unfold file_at. simpl. now rewrite assoc_set_other.
Qed.

Lemma file_at_mkdirs p : forall n n' q,
  FS.mkdirs n p = Some n' -> file_at n' q = file_at n q.
Proof.
  induction p as [|k r IH]; intros n n' q Hmk.
  - simpl in Hmk. destruct n; [discriminate|]. now injection Hmk as <-.
  - simpl in Hmk. destruct n as [c0|es]; [discriminate|].
    destruct (FS.mkdirs _ r) as [m'|] eqn:Em; [|discriminate].
    injection Hmk as <-. destruct q as [|k' r']; [reflexivity|].
    destruct (decide (k' = k)) as [->|Hk].
    + specialize (IH _ m' r' Em). unfold file_at in *. simpl.
      rewrite assoc_set_same, IH.
      destruct (FS.assoc k es) as [m|]; [reflexivity|].
      destruct r'; reflexivity.
    + unfold file_at. simpl. now rewrite assoc_set_other.
Qed.

Lemma diverge_dirname q dst :
  diverge q dst ->
  diverge q (dirname dst) \/ exists a r, q = dirname dst ++ a :: r.
Proof.
  intros (c & a & b & r1 & r2 & Hab & -> & ->). unfold dirname.
  rewrite removelast_app by discriminate.
  destruct r2 as [|k r2].
  - right. simpl. rewrite app_nil_r. eauto.
  - left. exists c, a, b, r1, (removelast (k :: r2)). auto.
Qed.

Lemma lookup_mkdirs_dirname q dst n n' :
  diverge q dst -> FS.mkdirs n (dirname dst) = Some n' ->
  FS.lookup n' q = FS.lookup n q.
Proof.
  intros Hd Hmk. apply diverge_dirname in Hd as [Hd|(a & r & ->)].
  - destruct Hd as (c & a & b & r1 & r2 & Hab & -> & Hp). rewrite Hp in Hmk.
    eapply lookup_mkdirs_diverge; eassumption.
  - now apply lookup_mkdirs_below.
Qed.

Lemma lookup_put_diverge' q dst n x n' :
  diverge q dst -> FS.put n dst x = Some n' -> FS.lookup n' q = FS.lookup n q.
Proof.
  intros (c & a & b & r1 & r2 & Hab & -> & ->) Hput.
  eapply lookup_put_diverge; eassumption.
Qed.

Lemma only_wrote_refl dst w : only_wrote dst w w.
Proof. repeat split. Qed.

Lemma only_wrote_trans dst a b c :
  only_wrote dst a b -> only_wrote dst b c -> only_wrote dst a c.
Proof.
  intros (F1 & L1 & C1) (F2 & L2 & C2). repeat split.
  - intros q Hq. now rewrite F2, F1.
  - intros q Hq. now rewrite L2, L1.
  - congruence.
Qed.

Lemma only_wrote_trace dst w tr : only_wrote dst w (World (fs w) (cwd w) tr).
Proof. repeat split. Qed.

Lemma only_wrote_mkdirs dst w n' tr :
  FS.mkdirs (fs w) (dirname dst) = Some n' ->
  only_wrote dst w (World n' (cwd w) tr).
Proof.
  intros H. repeat split; cbn [fs cwd].
  - intros q _. eapply file_at_mkdirs, H.
  - intros q Hq. eapply lookup_mkdirs_dirname; eassumption.
Qed.

Lemma only_wrote_put dst w c n' tr :
  FS.put (fs w) dst c = Some n' -> only_wrote dst w (World n' (cwd w) tr).
Proof.
  intros H. repeat split; cbn [fs cwd].
  - intros q Hq. rewrite (file_at_put _ _ _ _ q H). now rewrite decide_False.
  - intros q Hq. eapply lookup_put_diverge'; eassumption.
Qed.

Lemma process_image_frame src dst w r w' :
  process_image_cover src dst w = (r, w')
  \/ process_image_fanart src dst w = (r, w')
  \/ process_image_marquee src dst w = (r, w') ->
  only_wrote dst w w'.
Proof.
  intros [H|[H|H]]; revert H.
  - apply (respects_process_image_cover (only_wrote dst)
             (only_wrote_refl dst) (only_wrote_trans dst) (only_wrote_trace dst)
             dst (only_wrote_mkdirs dst) (only_wrote_put dst)).
  - apply (respects_process_image_fanart (only_wrote dst)
             (only_wrote_refl dst) (only_wrote_trans dst) (only_wrote_trace dst)
             dst (only_wrote_mkdirs dst) (only_wrote_put dst)).
  - apply (respects_process_image_marquee (only_wrote dst)
             (only_wrote_refl dst) (only_wrote_trans dst) (only_wrote_trace dst)
             dst (only_wrote_mkdirs dst) (only_wrote_put dst)).
Qed.

(** X2.  When the source is not a readable picture (missing, a directory,
    or a file that is no image), each of the three operations returns
    False, leaves the file tree and the working directory as they were,
    and prints one line naming the operation, the source and the error:
    [Image.open] fails before [os.makedirs] is reached, so nothing is
    created. *)
Theorem process_image_unreadable src dst w :
  picture_at (fs w) src = None ->
  exists e,
    let after name :=
      World (fs w) (cwd w)
        (trace w ++ [EvRead src;
                     EvPrint (("Error processing " +:+ name +:+ " " +:+ path_str src
                               +:+ ": " +:+ exn_str e) +:+ Str.newline)]) in
    process_image_cover src dst w = (Ok false, after "cover")
    /\ process_image_fanart src dst w = (Ok false, after "fanart")
    /\ process_image_marquee src dst w = (Ok false, after "marquee").
Proof.
  unfold picture_at. intros Hsrc.
  assert (Hopen : exists e,
            Image_open src w
            = (Raise e, World (fs w) (cwd w) (trace w ++ [EvRead src]))).
  { unfold Image_open, bind, emit, get_fs, raise, ret. simpl.
    destruct (FS.lookup (fs w) src) as [[[root|e|]|es]|]; try discriminate; eauto. }
  destruct Hopen as (e & Hopen). exists e. cbv zeta.
  unfold process_image_cover, process_image_fanart, process_image_marquee,
    try_except.
  unfold bind at 1. rewrite Hopen.
  unfold bind at 2. rewrite Hopen.
  unfold bind at 3. rewrite Hopen.
  unfold bind, print, emit, ret. cbn [fs cwd trace].
  rewrite <- !app_assoc. repeat split.
Qed.

Lemma diverge_extend q p r :
  diverge q p -> diverge q (p ++ r).
Proof.
  intros (c & a & b & r1 & r2 & Hab & -> & ->).
  exists c, a, b, r1, (r2 ++ r). rewrite <- app_assoc. auto.
Qed.

Lemma only_wrote_images_only dir subdir name w w' :
  only_wrote (dir ++ ["images"; subdir; name]) w w' -> images_only dir w w'.
Proof.
  intros (F & L & C). repeat split; [| | |exact C].
  - intros q Hq. apply F. intros ->. apply Hq. eauto.
  - intros k rest Hi. apply L.
    exists dir, k, "images", rest, [subdir; name]. auto.
  - intros q Hq. apply L. now apply diverge_extend.
Qed.

Lemma images_only_folder_kept dir w w' :
  images_only dir w w' -> folder_kept dir w w'.
Proof.
  intros (F & K & L & C). repeat split; [| | |exact C]; auto.
  intros q Hq. apply F. intros Ho. apply Hq. now right.
Qed.

Lemma only_wrote_folder_kept dir w w' :
  only_wrote (dir ++ ["gamelist.xml"]) w w' -> folder_kept dir w w'.
Proof.
  intros (F & L & C). repeat split; [| | |exact C].
  - intros q Hq. apply F. intros ->. apply Hq. now left.
  - intros k rest Hi Hg. apply L.
    exists dir, k, "gamelist.xml", rest, []. auto.
  - intros q Hq. apply L. now apply diverge_extend.
Qed.

Lemma images_only_refl dir w : images_only dir w w.
Proof. repeat split. Qed.

Lemma images_only_trans dir a b c :
  images_only dir a b -> images_only dir b c -> images_only dir a c.
Proof.
  intros (F1 & K1 & L1 & C1) (F2 & K2 & L2 & C2). repeat split.
  - intros q Hq. now rewrite F2, F1.
  - intros k rest Hi. now rewrite K2, K1.
  - intros q Hq. now rewrite L2, L1.
  - congruence.
Qed.

Lemma images_only_trace dir w tr : images_only dir w (World (fs w) (cwd w) tr).
Proof. repeat split. Qed.

Lemma folder_kept_refl dir w : folder_kept dir w w.
Proof. repeat split. Qed.

Lemma folder_kept_trans dir a b c :
  folder_kept dir a b -> folder_kept dir b c -> folder_kept dir a c.
Proof.
  intros (F1 & K1 & L1 & C1) (F2 & K2 & L2 & C2). repeat split.
  - intros q Hq. now rewrite F2, F1.
  - intros k rest Hi Hg. now rewrite K2, K1.
  - intros q Hq. now rewrite L2, L1.
  - congruence.
Qed.

Lemma folder_kept_trace dir w tr : folder_kept dir w (World (fs w) (cwd w) tr).
Proof. repeat split. Qed.

Lemma respects_weaken (R R' : world -> world -> Prop) {A : Type} (m : M A) :
  (forall w w', R w w' -> R' w w') -> respects R m -> respects R' m.
Proof. intros Hsub Hm w r w' H. eapply Hsub, Hm, H. Qed.

Section Loop.
Variable dir : path.
Variable R : world -> world -> Prop.
Hypothesis Rr : forall w, R w w.
Hypothesis Rt : forall a b c, R a b -> R b c -> R a c.
Hypothesis Rc : forall w tr, R w (World (fs w) (cwd w) tr).
Hypothesis Rcover : forall subdir name src,
  respects R (process_image_cover src (dir ++ ["images"; subdir; name])).
Hypothesis Rfanart : forall subdir name src,
  respects R (process_image_fanart src (dir ++ ["images"; subdir; name])).
Hypothesis Rmarquee : forall subdir name src,
  respects R (process_image_marquee src (dir ++ ["images"; subdir; name])).

Lemma respects_add_art type_folder tag subdir ext process s name rb ge :
  (forall src, respects R (process src (dir ++ ["images"; subdir; rb +:+ ext]))) ->
  respects R (add_art type_folder tag subdir ext process dir s name rb ge).
Proof.
  intros Hp. unfold add_art.
  apply respects_bind; [exact Rt|now apply respects_find_image|].
  intros found. destruct found as [found|]; [|now apply respects_ret].
  apply respects_bind; [exact Rt|apply Hp|].
  intros [|]; now apply respects_ret.
Qed.

Lemma respects_game_entry rom_map f name :
  respects R (game_entry dir rom_map f name).
Proof.
  unfold game_entry. destruct (rom_map !! f) as [g|]; [|now apply respects_ret].
  destruct (add_metadata g name _) as [ge title_text].
  apply respects_bind; [exact Rt| |].
  { apply respects_add_art. apply Rcover. }
  intros e1. apply respects_bind; [exact Rt| |].
  { apply respects_add_art. apply Rfanart. }
  intros e2. apply respects_add_art. apply Rmarquee.
Qed.

Lemma respects_process_file rom_map acc f :
  respects R (process_file dir rom_map acc f).
Proof.
  unfold process_file. destruct acc as [new_root count].
  destruct (OsPath.splitext f) as [name ext].
  destruct (negb _); [now apply respects_ret|].
  apply respects_bind; [exact Rt|now apply respects_print_end|]. intros _.
  apply respects_bind; [exact Rt|apply respects_game_entry|]. intros ge.
  destruct new_root. now apply respects_ret.
Qed.

Lemma respects_process_files rom_map files acc :
  respects R (for_each (process_file dir rom_map) files acc).
Proof.
  apply respects_for_each; [exact Rr|exact Rt|].
  intros a x _. apply respects_process_file.
Qed.

End Loop.

Lemma images_only_process_files dir rom_map files acc :
  respects (images_only dir) (for_each (process_file dir rom_map) files acc).
Proof.
  apply respects_process_files;
    first [ apply images_only_refl | apply images_only_trans
          | apply images_only_trace
          | intros subdir name src w r w' H;
            eapply only_wrote_images_only;
            eapply process_image_frame; eauto ].
Qed.

Lemma images_only_game_entry dir rom_map f name :
  respects (images_only dir) (game_entry dir rom_map f name).
Proof.
  apply respects_game_entry;
    first [ apply images_only_refl | apply images_only_trans
          | apply images_only_trace
          | intros subdir name' src w r w' H;
            eapply only_wrote_images_only;
            eapply process_image_frame; eauto ].
Qed.

Lemma respects_ET_write dir root :
  respects (folder_kept dir) (ET_write root (dir ++ ["gamelist.xml"])).
Proof.
  intros w r w' H. apply only_wrote_folder_kept.
  revert H. unfold ET_write.
  apply (respects_write_file (only_wrote (dir ++ ["gamelist.xml"]))
           (only_wrote_trace _) _ (only_wrote_put _)).
Qed.

Lemma process_directory_frame d w r w' :
  process_directory d w = (r, w') ->
  folder_kept (cwd w ++ [d]) w w'.
Proof.
  unfold process_directory, Os.abspath. unfold bind at 1 2.
  unfold get_cwd, ret at 1.
  set (dir := cwd w ++ [d]).
  pose proof (folder_kept_refl dir) as Rr.
  pose proof (folder_kept_trans dir) as Rt.
  pose proof (folder_kept_trace dir) as Rc.
  match goal with |- ?m w = _ -> _ =>
    enough (Hr : respects (folder_kept dir) m) by exact (Hr w r w') end.
  clearbody dir.
  apply respects_bind; [exact Rt|now apply respects_get_launchbox_xml|].
  intros [lb_xml|]; [|now apply respects_ret].
  apply respects_bind; [exact Rt|now apply respects_print|]. intros _.
  apply respects_bind; [exact Rt| |].
  { apply respects_try; [exact Rt| |].
    - apply respects_bind; [exact Rt|now apply respects_ET_parse|].
      intros root. now apply respects_ret.
    - intros e. apply respects_bind; [exact Rt|now apply respects_print|].
      intros _. now apply respects_ret. }
  intros [root|]; [|now apply respects_ret].
  apply respects_bind; [exact Rt|now apply respects_listdir|]. intros names.
  apply respects_bind; [exact Rt| |].
  { apply respects_filter_m; [exact Rr|exact Rt|].
    intros x. now apply respects_isfile. }
  intros files.
  apply respects_bind; [exact Rt| |].
  { eapply respects_weaken; [apply images_only_folder_kept|].
    apply images_only_process_files. }
  intros [new_root count].
  apply respects_bind; [exact Rt|apply respects_ET_write|]. intros _.
  now apply respects_print.
Qed.

Lemma main_kept_refl here w : main_kept here w w.
Proof. intros H. repeat split. exact H. Qed.

Lemma main_kept_trans here a b c :
  main_kept here a b -> main_kept here b c -> main_kept here a c.
Proof.
  intros H1 H2 Ha. destruct (H1 Ha) as (Cb & F1 & L1).
  destruct (H2 Cb) as (Cc & F2 & L2). repeat split.
  - exact Cc.
  - intros q Hq. now rewrite F2, F1.
  - intros d rest Hs. now rewrite L2, L1.
Qed.

Lemma main_kept_trace here w tr : main_kept here w (World (fs w) (cwd w) tr).
Proof. intros H. repeat split. exact H. Qed.

Lemma folder_kept_main_kept here d w w' :
  skipped d = false -> cwd w = here ->
  folder_kept (here ++ [d]) w w' -> main_kept here w w'.
Proof.
  intros Hd Hc (F & K & L & C) _. repeat split.
  - congruence.
  - intros q Hq. apply F. intros Ho. apply Hq. eauto.
  - intros d' rest Hs. apply L.
    exists here, d', d, rest, []. repeat split. congruence.
Qed.

Lemma respects_scan_dir here found d : respects (main_kept here) (scan_dir found d).
Proof.
  pose proof (main_kept_refl here) as Rr.
  pose proof (main_kept_trans here) as Rt.
  pose proof (main_kept_trace here) as Rc.
  unfold scan_dir. fold (skipped d).
  destruct (skipped d) eqn:Es; [now apply respects_ret|].
  apply respects_bind; [exact Rt|now apply respects_abspath|]. intros p.
  apply respects_bind; [exact Rt|now apply respects_get_launchbox_xml|].
  intros [lb|]; [|now apply respects_ret].
  apply respects_bind; [exact Rt| |intros _; now apply respects_ret].
  intros w r w' H Hc.
  apply process_directory_frame in H. rewrite Hc in H.
  now apply (folder_kept_main_kept here d w w' Es Hc H).
Qed.

(** X4.  The main block ends in the directory of the script.  The only
    plain files it can create or change are outputs (gamelist.xml and
    images/<sub>/<name>) of sub-directories that are not skipped; a
    skipped sub-directory (one of the four excluded names, or a name that
    starts with a dot) is left as it was, with everything below it. *)
Theorem main_touches_only_scanned file w r w' :
  main file w = (r, w') ->
  let here := dirname file in
  cwd w' = here
  /\ (forall q,
        ~ (exists d, skipped d = false /\ output_of (here ++ [d]) q) ->
        file_at (fs w') q = file_at (fs w) q)
  /\ (forall d rest, skipped d = true ->
        FS.lookup (fs w') (here ++ d :: rest) = FS.lookup (fs w) (here ++ d :: rest)).
Proof.
  intros H here.
  pose proof (main_kept_refl here) as Rr.
  pose proof (main_kept_trans here) as Rt.
  pose proof (main_kept_trace here) as Rc.
  unfold main in H. fold here in H.
  unfold bind at 1 in H. unfold Os.chdir at 1 in H.
  unfold bind at 1 in H. unfold emit at 1 in H. cbn [fs cwd trace] in H.
  set (w0 := World (fs w) here (trace w ++ [EvChdir here])) in H.
  revert H.
  match goal with |- ?m w0 = _ -> _ =>
    enough (Hr : respects (main_kept here) m)
      by (intros H; exact (Hr w0 r w' H eq_refl)) end.
  apply respects_bind; [exact Rt|now apply respects_get_cwd|]. intros here'.
  apply respects_bind; [exact Rt|now apply respects_listdir|]. intros names.
  apply respects_bind; [exact Rt| |].
  { apply respects_filter_m; [exact Rr|exact Rt|]. intros x.
    now apply respects_isdir. }
  intros dirs.
  apply respects_bind; [exact Rt|now apply respects_print|]. intros _.
  apply respects_bind; [exact Rt| |].
  { apply respects_for_each; [exact Rr|exact Rt|].
    intros acc x _. apply respects_scan_dir. }
  intros found.
  apply respects_bind; [exact Rt| |].
  { destruct (found =? 0)%nat; [now apply respects_print|now apply respects_ret]. }
  intros _.
  apply respects_bind; [exact Rt|now apply respects_print|]. intros _.
  now apply respects_input.
Qed.

Lemma filter_m_isfile dir names : forall w,
  filter_m (fun f => Os.isfile (dir ++ [f])) names w =
  (Ok (List.filter (fun k => is_file_at (fs w) (dir ++ [k])) names),
   World (fs w) (cwd w) (trace w ++ map (fun f => EvStat (dir ++ [f])) names)).
Proof.
  induction names as [|x r IH]; intros w.
  - simpl. unfold ret. rewrite app_nil_r. now destruct w.
  - cbn [filter_m List.filter map]. unfold bind at 1.
    unfold Os.isfile at 1, bind at 1, emit at 1. unfold bind at 1.
    unfold get_fs at 1, ret at 1. cbn [fs cwd trace].
    unfold bind at 1. rewrite IH. cbn [fs cwd trace]. unfold ret.
    rewrite <- app_assoc. unfold is_file_at.
    destruct (FS.lookup (fs w) (dir ++ [x])) as [[c|es]|]; reflexivity.
Qed.

Lemma launchbox_xml_dir n dir p :
  launchbox_xml_in n dir = Some p -> exists es, FS.lookup n dir = Some (Dir es).
Proof.
  unfold launchbox_xml_in.
  destruct (FS.lookup n dir) as [[c|es]|]; try discriminate. eauto.
Qed.

(** With a metadata file that parses, [process_directory] comes down to
    the loop over the sorted plain files, the writing of the list and the
    last message. *)
Lemma process_directory_parsed d w lb_xml root :
  let dir := cwd w ++ [d] in
  launchbox_xml_in (fs w) dir = Some lb_xml ->
  FS.lookup (fs w) lb_xml = Some (File (XmlDoc root)) ->
  exists tr,
    process_directory d w =
    (built <-
       for_each (process_file dir (build_rom_map root))
         (Os.sorted (plain_files (fs w) dir)) (Element "gameList" None [], O);;
     let '(new_root, count) := built in
     ET_write new_root (dir ++ ["gamelist.xml"]);;
     print (Str.newline +:+ "  Generated "
            +:+ List.last (dir ++ ["gamelist.xml"]) EmptyString
            +:+ " with " +:+ Str.of_nat count +:+ " games."))
      (World (fs w) (cwd w) (trace w ++ tr)).
Proof.
  intros dir Hxml Hroot.
  destruct (launchbox_xml_dir _ _ _ Hxml) as (es & Hdir).
  eexists.
  unfold process_directory, Os.abspath. unfold bind at 1 2.
  unfold get_cwd, ret at 1. fold dir. unfold bind at 1.
  rewrite get_launchbox_xml_eq. cbn [fs cwd trace]. rewrite Hxml.
  unfold bind at 1. unfold print at 1, emit at 1. cbn [fs cwd trace].
  unfold bind at 1. unfold try_except at 1. unfold bind at 1.
  unfold ET_parse at 1. unfold bind at 1. unfold emit at 1. unfold bind at 1.
  unfold get_fs at 1. cbn [fs cwd trace]. rewrite Hroot. unfold ret at 1 2.
  unfold bind at 1. unfold Os.listdir at 1. unfold bind at 1. unfold emit at 1.
  unfold bind at 1. unfold get_fs at 1. cbn [fs cwd trace]. rewrite Hdir.
  unfold ret at 1. unfold bind at 1. rewrite filter_m_isfile. cbn [fs cwd trace].
  unfold plain_files. rewrite Hdir.
  rewrite <- !app_assoc. reflexivity.
Qed.

(** The order of [sorted] *)
Lemma ascii_compare_N a b :
  Ascii.compare a b = N.compare (N_of_ascii a) (N_of_ascii b).
Proof. reflexivity. Qed.

Lemma string_compare_trans_lt : forall s1 s2 s3,
  String.compare s1 s2 <> Gt -> String.compare s2 s3 <> Gt ->
  String.compare s1 s3 <> Gt.
Proof.
  induction s1 as [|c1 s1 IH]; intros [|c2 s2] [|c3 s3]; simpl;
    try congruence.
  rewrite !ascii_compare_N.
  destruct (N.compare_spec (N_of_ascii c1) (N_of_ascii c2)) as [E12|L12|G12];
    destruct (N.compare_spec (N_of_ascii c2) (N_of_ascii c3)) as [E23|L23|G23];
    try congruence; intros H12 H23.
  - rewrite E12, E23, N.compare_refl. now apply IH with s2.
  - rewrite E12. now apply N.compare_lt_iff in L23 as ->.
  - rewrite <- E23. now apply N.compare_lt_iff in L12 as ->.
  - assert (L13 : (N_of_ascii c1 < N_of_ascii c3)%N) by lia.
    now apply N.compare_lt_iff in L13 as ->.
Qed.

Lemma leb_trans s1 s2 s3 :
  String.leb s1 s2 = true -> String.leb s2 s3 = true -> String.leb s1 s3 = true.
Proof.
  unfold String.leb. intros H12 H23.
  pose proof (string_compare_trans_lt s1 s2 s3) as H.
  destruct (String.compare s1 s2); try discriminate;
    destruct (String.compare s2 s3); try discriminate;
    destruct (String.compare s1 s3); try reflexivity;
    exfalso; apply H; congruence.
Qed.

Lemma insert_sorted_perm x l : Permutation (x :: l) (Os.insert_sorted x l).
Proof.
  induction l as [|y r IH]; simpl; [reflexivity|].
  destruct (String.leb x y); [reflexivity|].
  rewrite perm_swap. now constructor.
Qed.

Lemma sorted_perm l : Permutation l (Os.sorted l).
Proof.
  induction l as [|x r IH]; simpl; [reflexivity|].
  rewrite <- insert_sorted_perm. now constructor.
Qed.

Lemma insert_sorted_sorted x l :
  StronglySorted (fun a b => String.leb a b = true) l ->
  StronglySorted (fun a b => String.leb a b = true) (Os.insert_sorted x l).
Proof.
  induction 1 as [|y r Hs IH Hall]; simpl.
  - repeat constructor.
  - destruct (String.leb x y) eqn:E.
    + constructor; [now constructor|]. constructor; [exact E|].
      eapply List.Forall_impl; [|exact Hall]. intros z Hz. now apply leb_trans with y.
    + constructor; [exact IH|].
      assert (Hyx : String.leb y x = true)
        by (destruct (String.leb_total x y); congruence).
      rewrite <- (insert_sorted_perm x r). now constructor.
Qed.

Lemma sorted_sorted l :
  StronglySorted (fun a b => String.leb a b = true) (Os.sorted l).
Proof.
  induction l as [|x r IH]; simpl; [constructor|now apply insert_sorted_sorted].
Qed.

Lemma filter_strongly_sorted {A : Type} (R : A -> A -> Prop) f l :
  StronglySorted R l -> StronglySorted R (List.filter f l).
Proof.
  induction 1 as [|x r Hs IH Hall]; simpl; [constructor|].
  destruct (f x); [|exact IH]. constructor; [exact IH|].
  apply List.Forall_forall. intros y Hy. apply filter_In in Hy as [Hy _].
  rewrite List.Forall_forall in Hall. now apply Hall.
Qed.

Lemma filter_perm {A : Type} (f : A -> bool) l l' :
  Permutation l l' -> Permutation (List.filter f l) (List.filter f l').
Proof.
  induction 1; simpl.
  - reflexivity.
  - destruct (f x); [now constructor|assumption].
  - destruct (f x), (f y); try reflexivity. apply perm_swap.
  - etransitivity; eassumption.
Qed.


Lemma last_snoc {A : Type} (l : list A) x d : List.last (l ++ [x]) d = x.
Proof. apply last_last. Qed.

(** X5.  When the metadata parses and [process_directory] returns, the
    gamelist.xml of the folder holds a gameList root with one entry per
    plain file of the folder that has a ROM extension: the path fields
    are ./<file> for exactly those files, in code point order (a sorted
    permutation of the listing), and the last line printed gives their
    number. *)
Theorem gamelist_lists_roms d w lb_xml root w1 w' :
  get_launchbox_xml (cwd w ++ [d]) w = (Ok (Some lb_xml), w1) ->
  FS.lookup (fs w) lb_xml = Some (File (XmlDoc root)) ->
  process_directory d w = (Ok tt, w') ->
  let dir := cwd w ++ [d] in
  let roms := List.filter is_rom (Os.sorted (plain_files (fs w) dir)) in
  exists entries pre,
    file_at (fs w') (dir ++ ["gamelist.xml"])
    = Some (XmlDoc (Element "gameList" None entries))
    /\ map (ET.find "path") entries
       = map (fun f => Some (Element "path" (Some ("./" +:+ f)) [])) roms
    /\ Permutation roms (List.filter is_rom (plain_files (fs w) dir))
    /\ StronglySorted (fun a b => String.leb a b = true) roms
    /\ trace w' =
       pre ++ [EvPrint ((Str.newline +:+ "  Generated gamelist.xml with "
                         +:+ Str.of_nat (length entries) +:+ " games.")
                        +:+ Str.newline)].
Proof.
  intros Hxml Hroot Hrun dir roms.
  rewrite get_launchbox_xml_eq in Hxml. injection Hxml as Hxml _.
  destruct (process_directory_parsed d w lb_xml root Hxml Hroot) as (tr & Hpd).
  fold dir in Hpd. rewrite Hpd in Hrun. clear Hpd.
  apply bind_ok in Hrun as ([new_root count] & w2 & Hloop & Hrun).
  destruct (process_files_all dir (build_rom_map root)
              (Os.sorted (plain_files (fs w) dir)) "gameList" None [] O
              (World (fs w) (cwd w) (trace w ++ tr)))
    as (entries & w2' & Hloop' & Hpaths).
  rewrite Hloop' in Hloop. injection Hloop as <- <- <-.
  apply bind_ok in Hrun as ([] & w3 & Hwrite & Hprint).
  unfold print, emit in Hprint. injection Hprint as <-.
  unfold ET_write, Os.write_file, bind, emit, get_fs, set_fs, raise in Hwrite.
  cbn [fs cwd trace] in Hwrite.
  destruct (FS.put (fs w2') (dir ++ ["gamelist.xml"]) _) as [n'|] eqn:Eput;
    [|discriminate].
  injection Hwrite as <-. cbn [fs trace].
  exists entries. eexists. split; [|split; [|split; [|split]]].
  - unfold file_at. now rewrite (put_lookup _ _ _ _ Eput).
  - exact Hpaths.
  - apply filter_perm. symmetry. apply sorted_perm.
  - apply filter_strongly_sorted, sorted_sorted.
  - rewrite last_snoc. simpl. reflexivity.
Qed.












(** The loop of the main block *)
















(** sanitize_lb_title *)
Lemma re_sub_clean s i c :
  String.get i (re_sub_forbidden s) = Some c -> is_forbidden c = false.
Proof.
  rewrite get_re_sub. destruct (String.get i s) as [a|]; [|discriminate].
  destruct (is_forbidden a) eqn:E; intros [= <-]; [reflexivity|exact E].
Qed.

Lemma re_sub_fixed s :
  (forall i c, String.get i s = Some c -> is_forbidden c = false) ->
  re_sub_forbidden s = s.
Proof.
  induction s as [|a s IH]; intros H; simpl; [reflexivity|].
  rewrite (H O a eq_refl). f_equal. apply IH.
  intros i c Hi. apply (H (S i)). exact Hi.
Qed.

Lemma sanitize_Some s :
  sanitize_lb_title (Some s) = re_sub_forbidden s.
Proof. now destruct s. Qed.

(** X8.  The result of [sanitize_lb_title] holds none of the eleven
    characters of the pattern; sanitizing twice is sanitizing once; and a
    title without those characters comes back as it is. *)
Theorem sanitize_clean_idempotent (title : option string) :
  (forall i c, String.get i (sanitize_lb_title title) = Some c ->
     ~ In c ["<"; ">"; ":"; "034"; "/"; "\"; "|"; "?"; "*"; "'"; "`"]%char)
  /\ sanitize_lb_title (Some (sanitize_lb_title title)) = sanitize_lb_title title
  /\ (forall s, title = Some s ->
        (forall i c, String.get i s = Some c ->
           ~ In c ["<"; ">"; ":"; "034"; "/"; "\"; "|"; "?"; "*"; "'"; "`"]%char) ->
        sanitize_lb_title title = s).
Proof.
  assert (Hclean : forall i c,
            String.get i (sanitize_lb_title title) = Some c ->
            is_forbidden c = false).
  { destruct title as [s|]; [|intros [|?] c; discriminate].
    rewrite sanitize_Some. intros i c. apply re_sub_clean. }
  split; [|split].
  - intros i c Hi Hin. apply is_forbidden_iff in Hin.
    rewrite (Hclean i c Hi) in Hin. discriminate.
  - rewrite sanitize_Some. now apply re_sub_fixed.
  - intros s -> Hs. rewrite sanitize_Some. apply re_sub_fixed.
    intros i c Hi. destruct (is_forbidden c) eqn:E; [|reflexivity].
    apply is_forbidden_iff in E. now apply Hs in Hi.
Qed.

(** Suffix tests *)
Lemma length_app a b : String.length (a +:+ b) = (String.length a + String.length b)%nat.
Proof.
  induction a as [|c a IH]; [reflexivity|].
  change (S (String.length (a +:+ b)) = S (String.length a + String.length b)).
  now f_equal.
Qed.

Lemma substring_skip a : forall n m b,
  substring (String.length a + n) m (a +:+ b) = substring n m b.
Proof. induction a as [|c a IH]; intros n m b; [reflexivity|apply IH]. Qed.

Lemma substring_all s : substring 0 (String.length s) s = s.
Proof. induction s as [|c s IH]; simpl; [reflexivity|now f_equal]. Qed.

Lemma substring_split x : forall m,
  (m <= String.length x)%nat ->
  substring 0 m x +:+ substring m (String.length x - m) x = x.
Proof.
  induction x as [|c x IH]; intros [|m] Hm; simpl in *; try lia.
  - reflexivity.
  - change (String c (substring 0 (String.length x) x) = String c x).
    now rewrite substring_all.
  - change (String c (substring 0 m x +:+ substring m (String.length x - m) x)
            = String c x).
    f_equal. apply IH. lia.
Qed.

Lemma endswith_iff x s :
  Str.endswith x s = true <-> exists pre, x = pre +:+ s.
Proof.
  unfold Str.endswith. split.
  - intros H. apply andb_true_iff in H as [Hle Heq].
    apply Nat.leb_le in Hle. apply String.eqb_eq in Heq.
    exists (substring 0 (String.length x - String.length s) x).
    pose proof (substring_split x (String.length x - String.length s)
                  ltac:(lia)) as Hsplit.
    replace (String.length x - (String.length x - String.length s))%nat
      with (String.length s) in Hsplit by lia.
    rewrite Heq in Hsplit. now symmetry.
  - intros (pre & ->). rewrite length_app. apply andb_true_iff. split.
    + apply Nat.leb_le. lia.
    + replace (String.length pre + String.length s - String.length s)%nat
        with (String.length pre + 0)%nat by lia.
      rewrite substring_skip, substring_all. apply String.eqb_refl.
Qed.

Lemma app_assoc_string a b c : (a +:+ b) +:+ c = a +:+ (b +:+ c).
Proof.
  induction a as [|x a IH]; [reflexivity|].
  change (String x ((a +:+ b) +:+ c) = String x (a +:+ (b +:+ c))). now f_equal.
Qed.

Lemma chars_app a b : Str.chars (a +:+ b) = Str.chars a ++ Str.chars b.
Proof.
  induction a as [|x a IH]; [reflexivity|].
  change (x :: Str.chars (a +:+ b) = x :: Str.chars a ++ Str.chars b). now f_equal.
Qed.

(** A suffix without a slash lies within the last component. *)
Lemma suffix_after_slash a : forall pre s b,
  ~ In "/"%char (Str.chars s) ->
  pre +:+ s = a +:+ String "/" b ->
  exists pre', b = pre' +:+ s.
Proof.
  induction a as [|x a IH]; intros pre s b Hs Heq.
  - destruct pre as [|c pre].
    + exfalso. apply Hs. change (s = String "/" b) in Heq. subst s. now left.
    + change (String c (pre +:+ s) = String "/" b) in Heq.
      injection Heq as _ Heq. eauto.
  - destruct pre as [|c pre].
    + exfalso. apply Hs. change (s = String x (a +:+ String "/" b)) in Heq.
      subst s. change (In "/"%char (x :: Str.chars (a +:+ String "/" b))).
      right. rewrite chars_app. apply in_or_app. right. now left.
    + change (String c (pre +:+ s) = String x (a +:+ String "/" b)) in Heq.
      injection Heq as _ Heq. eapply IH; eassumption.
Qed.

Lemma lower_app a b : Str.lower (a +:+ b) = Str.lower a +:+ Str.lower b.
Proof.
  induction a as [|x a IH]; [reflexivity|].
  change (String (Str.lower_ascii x) (Str.lower (a +:+ b))
          = String (Str.lower_ascii x) (Str.lower a +:+ Str.lower b)).
  now f_equal.
Qed.

Lemma path_str_snoc dir k : path_str (dir ++ [k]) = path_str dir +:+ String "/" k.
Proof.
  induction dir as [|c dir IH].
  - simpl. change (String "/" (k +:+ EmptyString) = String "/" k).
    now rewrite append_empty_r.
  - simpl. rewrite IH.
    change (String "/" (c +:+ (path_str dir +:+ String "/" k))
            = String "/" ((c +:+ path_str dir) +:+ String "/" k)).
    now rewrite app_assoc_string.
Qed.

(** The test of [get_launchbox_xml] on the whole path is a test on the
    file name. *)
Lemma gamelist_test_on_name dir k :
  Str.endswith (Str.lower (path_str (dir ++ [k]))) "gamelist.xml"
  = Str.endswith (Str.lower k) "gamelist.xml".
Proof.
  rewrite path_str_snoc, lower_app.
  change (Str.lower (String "/" k)) with (String "/" (Str.lower k)).
  destruct (Str.endswith (Str.lower k) "gamelist.xml") eqn:E.
  - apply endswith_iff in E as (pre & ->). apply endswith_iff.
    exists (Str.lower (path_str dir) +:+ String "/" pre).
    rewrite app_assoc_string. reflexivity.
  - destruct (Str.endswith (Str.lower (path_str dir) +:+ _) _) eqn:E';
      [|reflexivity].
    apply endswith_iff in E' as (pre & Hpre).
    symmetry in Hpre. apply suffix_after_slash in Hpre as (pre' & Hk).
    + assert (Str.endswith (Str.lower k) "gamelist.xml" = true)
        by (apply endswith_iff; eauto). congruence.
    + vm_compute. intuition discriminate.
Qed.


Lemma find_app_first {A : Type} (f : A -> bool) l1 l2 :
  List.find f (l1 ++ l2)
  = match List.find f l1 with Some x => Some x | None => List.find f l2 end.
Proof.
  induction l1 as [|a l1 IH]; [reflexivity|]. simpl.
  destruct (f a); [reflexivity|exact IH].
Qed.

Lemma first_match_find cands walked :
  first_match cands walked =
  List.find (fun p => matches cands (List.last p EmptyString))
    (concat (map (fun '(root, _, files) => map (fun f => root ++ [f]) files)
               walked)).
Proof.
  induction walked as [|[[root dirs] files] rest IH]; [reflexivity|].
  cbn [first_match map concat]. rewrite find_app_first.
  assert (Hfiles : List.find (fun p => matches cands (List.last p EmptyString))
                     (map (fun f => root ++ [f]) files)
                   = option_map (fun f => root ++ [f])
                       (List.find (matches cands) files)).
  { clear. induction files as [|f r IHf]; [reflexivity|].
    cbn [map List.find]. rewrite last_last.
    destruct (matches cands f); [reflexivity|exact IHf]. }
  rewrite Hfiles. destruct (List.find (matches cands) files); [reflexivity|exact IH].
Qed.

Lemma find_first {A : Type} (f : A -> bool) l x :
  List.find f l = Some x ->
  exists before after,
    l = before ++ x :: after /\ f x = true
    /\ forall y, In y before -> f y = false.
Proof.
  induction l as [|a l IH]; [discriminate|]. simpl.
  destruct (f a) eqn:E.
  - intros [= <-]. exists [], l. repeat split; [exact E|contradiction].
  - intros H. destruct (IH H) as (before & after & -> & Hx & Hb).
    exists (a :: before), after. repeat split; [exact Hx|].
    intros y [<-|Hy]; auto.
Qed.

(** X10.  The file [find_image] returns is the first one, in the order in
    which [os.walk] yields the files below the category folder, whose
    name passes the test: no file before it does.  The place of a name
    in the list of candidates plays no part. *)
Theorem find_image_first_in_walk_order base type_folder t r w n p :
  FS.lookup (fs w) (base ++ [type_folder]) = Some n ->
  fst (find_image base type_folder t r w) = Ok (Some p) ->
  exists before after,
    walk_files (base ++ [type_folder]) n = before ++ p :: after
    /\ matches (candidates t r) (List.last p EmptyString) = true
    /\ forall q, In q before ->
         matches (candidates t r) (List.last q EmptyString) = false.
Proof.
  intros Hn. rewrite find_image_eq, Hn. cbn [fst]. intros [= Hp].
  rewrite first_match_find in Hp. now apply find_first in Hp.
Qed.

(** X11.  Writing the outputs does not disturb the lookups: for a category
    folder other than images and gamelist.xml, [find_image] answers the
    same after the artwork blocks of any game, and after a whole run of
    [process_directory], as it did before. *)
Theorem lookups_unaffected_by_outputs dir type_folder t r0 :
  type_folder <> "images" -> type_folder <> "gamelist.xml" ->
  (forall rom_map f name w r w',
     game_entry dir rom_map f name w = (r, w') ->
     fst (find_image dir type_folder t r0 w')
     = fst (find_image dir type_folder t r0 w))
  /\ (forall d w r w',
        dir = cwd w ++ [d] ->
        process_directory d w = (r, w') ->
        fst (find_image dir type_folder t r0 w')
        = fst (find_image dir type_folder t r0 w)).
Proof.
  intros Hi Hg. split.
  - intros rom_map f name w r w' H.
    apply images_only_game_entry in H as (_ & K & _ & _).
    rewrite !find_image_eq.
    change (dir ++ [type_folder]) with (dir ++ type_folder :: []).
    rewrite (K type_folder [] Hi).
    now destruct (FS.lookup (fs w) _).
  - intros d w r w' -> H.
    apply process_directory_frame in H as (_ & K & _ & _).
    rewrite !find_image_eq.
    change ((cwd w ++ [d]) ++ [type_folder])
      with ((cwd w ++ [d]) ++ type_folder :: []).
    rewrite (K type_folder [] Hi Hg).
    now destruct (FS.lookup (fs w) _).
Qed.

(** X1.  Whichever of the three image operations runs, and whatever it
    returns, the only plain file it can create or change is [dest_path]:
    every other file keeps its content, every node off the way to
    [dest_path] is the same node, and the working directory is the same.
    Directories can appear along [dirname dest_path] only. *)
Theorem process_image_writes_only_dest src dst w r w' :
  process_image_cover src dst w = (r, w')
  \/ process_image_fanart src dst w = (r, w')
  \/ process_image_marquee src dst w = (r, w') ->
  only_wrote dst w w'.
Proof. apply process_image_frame. Qed.

(** X3.  A run of [process_directory] on a folder, whatever its outcome,
    changes no plain file other than the gamelist.xml of the folder and
    the files images/<sub>/<name> below it; every entry of the folder
    other than images and gamelist.xml is the same node afterwards (ROMs,
    metadata and source artwork are untouched), and so is everything
    outside the folder; the working directory is kept. *)
Theorem process_directory_writes_only_outputs d w r w' :
  process_directory d w = (r, w') ->
  folder_kept (cwd w ++ [d]) w w'.
Proof. apply process_directory_frame. Qed.





(** ** The written list and the next run *)















Lemma process_files_unmatched dir rm files : forall t x c n w,
  (forall f, In f (List.filter is_rom files) -> rm !! f = None) ->
  exists tr,
    for_each (process_file dir rm) files (Element t x c, n) w
    = (Ok (Element t x (c ++ map minimal_entry (List.filter is_rom files)),
           (n + length (List.filter is_rom files))%nat),
       World (fs w) (cwd w) (trace w ++ tr)).
Proof.
  induction files as [|f files IH]; intros t x c n w Hnone.
  - exists []. cbn. unfold ret. rewrite !app_nil_r, Nat.add_0_r. now destruct w.
  - cbn [for_each]. unfold bind at 1. unfold process_file at 1.
    cbn [List.filter] in *.
    assert (Hm : minimal_entry f =
                 Element "game" None
                   [Element "path" (Some ("./" +:+ f)) [];
                    Element "name" (Some (fst (OsPath.splitext f))) []])
      by reflexivity.
    assert (Hr : is_rom f
                 = Str.mem (Str.lower (snd (OsPath.splitext f))) game_exts)
      by reflexivity.
    rewrite Hr in *. clear Hr.
    destruct (OsPath.splitext f) as [name ext]. cbn [fst snd] in *.
    destruct (Str.mem (Str.lower ext) game_exts); cbn [negb].
    + unfold bind at 1. unfold print_end at 1, emit at 1. cbn [fs cwd trace].
      unfold bind at 1.
      rewrite (game_entry_unmatched dir rm f name _ (Hnone f (or_introl eq_refl))).
      unfold ret at 1.
      destruct (IH t x (c ++ [Element "game" None
                                [Element "path" (Some ("./" +:+ f)) [];
                                 Element "name" (Some name) []]]) (S n)
                  (World (fs w) (cwd w)
                     (trace w ++ [EvPrint (("  Game: " +:+ name) +:+ Str.cr)])))
        as (tr & ->).
      { intros f' Hf'. apply Hnone. now right. }
      cbn [fs cwd trace map length]. rewrite Hm. eexists.
      rewrite <- !app_assoc. cbn [app]. rewrite Nat.add_succ_r. reflexivity.
    + unfold ret at 1. apply IH. exact Hnone.
Qed.

(** X15.  A folder whose metadata parses but names none of its ROM files:
    the run writes gamelist.xml and nothing else.  The tree it leaves is
    the tree it found with that one file put in, holding the minimal
    entry (path and name, the name being the file name without its
    extension) of each ROM file in sorted order; no images directory is
    made. *)
Theorem unmatched_folder_only_gamelist d w lb_xml root w1 w' :
  get_launchbox_xml (cwd w ++ [d]) w = (Ok (Some lb_xml), w1) ->
  FS.lookup (fs w) lb_xml = Some (File (XmlDoc root)) ->
  let dir := cwd w ++ [d] in
  let roms := List.filter is_rom (Os.sorted (plain_files (fs w) dir)) in
  (forall f, In f roms -> build_rom_map root !! f = None) ->
  process_directory d w = (Ok tt, w') ->
  FS.put (fs w) (dir ++ ["gamelist.xml"])
    (XmlDoc (Element "gameList" None (map minimal_entry roms)))
  = Some (fs w').
Proof.
  intros Hxml Hroot dir roms Hnone Hrun.
  rewrite get_launchbox_xml_eq in Hxml. injection Hxml as Hxml _.
  destruct (process_directory_parsed d w lb_xml root Hxml Hroot) as (tr & Hpd).
  fold dir in Hpd. rewrite Hpd in Hrun. clear Hpd.
  destruct (process_files_unmatched dir (build_rom_map root)
              (Os.sorted (plain_files (fs w) dir)) "gameList" None [] O
              (World (fs w) (cwd w) (trace w ++ tr)) Hnone) as (tr2 & Hloop).
  unfold bind at 1 in Hrun. rewrite Hloop in Hrun. fold roms in Hrun.
  cbn [app fs cwd trace] in Hrun.
  apply bind_ok in Hrun as ([] & w3 & Hwrite & Hprint).
  unfold print, emit in Hprint. injection Hprint as <-.
  unfold ET_write, Os.write_file, bind, emit, get_fs, set_fs, raise in Hwrite.
  cbn [fs cwd trace] in Hwrite.
  destruct (FS.put (fs w) (dir ++ ["gamelist.xml"]) _) as [n'|] eqn:Eput;
    [|discriminate].
  injection Hwrite as <-. reflexivity.
Qed.

(** Listings *)

Lemma set_names {A : Type} k (v : A) es :
  map fst (FS.set k v es)
  = map fst es ++ match FS.assoc k es with Some _ => [] | None => [k] end.
Proof.
  induction es as [|[k' v'] es IH]; [reflexivity|]. simpl.
  destruct (String.eqb k k') eqn:E; simpl.
  - now rewrite app_nil_r.
  - now rewrite IH.
Qed.

Lemma listing_nil_Dir dir : listing (Dir []) dir = [].
Proof. destruct dir; reflexivity. Qed.

Lemma listing_cons es a dir :
  listing (Dir es) (a :: dir)
  = match FS.assoc a es with Some m => listing m dir | None => [] end.
Proof. unfold listing. simpl. now destruct (FS.assoc a es). Qed.

Lemma listing_mkdirs k rest : forall dir n n',
  FS.mkdirs n (dir ++ k :: rest) = Some n' ->
  exists extra,
    listing n' dir = listing n dir ++ extra /\ forall x, In x extra -> x = k.
Proof.
  induction dir as [|a dir IH]; intros n n' Hmk.
  - cbn [app] in Hmk. simpl in Hmk. destruct n as [c|es]; [discriminate|].
    destruct (FS.mkdirs _ rest) as [m'|]; [|discriminate].
    injection Hmk as <-. unfold listing. cbn [FS.lookup]. rewrite set_names.
    eexists. split; [reflexivity|].
    intros x Hx. destruct (FS.assoc k es); [contradiction|].
    destruct Hx as [<-|[]]. reflexivity.
  - rewrite <- app_comm_cons in Hmk. simpl in Hmk.
    destruct n as [c|es]; [discriminate|].
    destruct (FS.mkdirs _ (dir ++ k :: rest)) as [m'|] eqn:Em; [|discriminate].
    injection Hmk as <-. rewrite !listing_cons, assoc_set_same.
    apply IH in Em as (extra & Hl & Hx). exists extra. split; [|exact Hx].
    rewrite Hl. destruct (FS.assoc a es); [reflexivity|].
    now rewrite listing_nil_Dir.
Qed.

Lemma listing_put k rest c : forall dir n n',
  FS.put n (dir ++ k :: rest) c = Some n' ->
  exists extra,
    listing n' dir = listing n dir ++ extra /\ forall x, In x extra -> x = k.
Proof.
  induction dir as [|a dir IH]; intros n n' Hput.
  - cbn [app] in Hput. destruct n as [c0|es]; [destruct rest; discriminate|].
    assert (Hn : exists v, n' = Dir (FS.set k v es)).
    { destruct rest as [|k2 r2].
      - rewrite put_single in Hput.
        destruct (FS.assoc k es) as [[?|?]|]; try discriminate;
          injection Hput as <-; eauto.
      - rewrite put_cons in Hput by discriminate.
        destruct (FS.assoc k es); [|discriminate].
        destruct (FS.put _ _ _); [|discriminate]. injection Hput as <-. eauto. }
    destruct Hn as (v & ->). unfold listing. cbn [FS.lookup]. rewrite set_names.
    eexists. split; [reflexivity|].
    intros x Hx. destruct (FS.assoc k es); [contradiction|].
    destruct Hx as [<-|[]]. reflexivity.
  - rewrite <- app_comm_cons in Hput.
    rewrite put_cons in Hput by (now destruct dir).
    destruct n as [c0|es]; [discriminate|].
    destruct (FS.assoc a es) as [m|] eqn:Ea; [|discriminate].
    destruct (FS.put m (dir ++ k :: rest) c) as [m'|] eqn:Ep; [|discriminate].
    injection Hput as <-. rewrite !listing_cons, assoc_set_same, Ea.
    now apply IH in Ep.
Qed.

Lemma listing_grows_refl dir w : listing_grows dir w w.
Proof. exists []. split; [now rewrite app_nil_r|contradiction]. Qed.

Lemma listing_grows_trans dir a b c :
  listing_grows dir a b -> listing_grows dir b c -> listing_grows dir a c.
Proof.
  intros (e1 & H1 & K1) (e2 & H2 & K2). exists (e1 ++ e2). split.
  - now rewrite H2, H1, app_assoc.
  - intros k Hk. apply in_app_or in Hk as [Hk|Hk]; auto.
Qed.

Lemma listing_grows_trace dir w tr :
  listing_grows dir w (World (fs w) (cwd w) tr).
Proof. exists []. split; [cbn [fs]; now rewrite app_nil_r|contradiction]. Qed.

Lemma dirname_images dir sub name :
  dirname (dir ++ ["images"; sub; name]) = dir ++ ["images"; sub].
Proof.
  unfold dirname.
  change (dir ++ ["images"; sub; name]) with (dir ++ ["images"; sub] ++ [name]).
  now rewrite app_assoc, removelast_last.
Qed.

Lemma listing_grows_image_op dir sub name :
  (forall src, respects (listing_grows dir)
                 (process_image_cover src (dir ++ ["images"; sub; name])))
  /\ (forall src, respects (listing_grows dir)
                    (process_image_fanart src (dir ++ ["images"; sub; name])))
  /\ (forall src, respects (listing_grows dir)
                    (process_image_marquee src (dir ++ ["images"; sub; name]))).
Proof.
  pose proof (listing_grows_refl dir) as Rr.
  pose proof (listing_grows_trans dir) as Rt.
  pose proof (listing_grows_trace dir) as Rc.
  assert (Rmk : forall w n' tr,
            FS.mkdirs (fs w) (dirname (dir ++ ["images"; sub; name])) = Some n' ->
            listing_grows dir w (World n' (cwd w) tr)).
  { intros w n' tr Hmk. rewrite dirname_images in Hmk.
    apply listing_mkdirs in Hmk as (extra & Hl & Hx).
    exists extra. split; [exact Hl|]. intros k Hk. left. now apply Hx. }
  assert (Rput : forall w c n' tr,
            FS.put (fs w) (dir ++ ["images"; sub; name]) c = Some n' ->
            listing_grows dir w (World n' (cwd w) tr)).
  { intros w c n' tr Hput.
    apply listing_put in Hput as (extra & Hl & Hx).
    exists extra. split; [exact Hl|]. intros k Hk. left. now apply Hx. }
  split; [|split]; intros src.
  - apply respects_process_image_cover;
      first [exact Rr|exact Rt|exact Rc|apply Rmk|apply Rput].
  - apply respects_process_image_fanart;
      first [exact Rr|exact Rt|exact Rc|apply Rmk|apply Rput].
  - apply respects_process_image_marquee;
      first [exact Rr|exact Rt|exact Rc|apply Rmk|apply Rput].
Qed.

Lemma listing_grows_process_directory d w r w' :
  process_directory d w = (r, w') -> listing_grows (cwd w ++ [d]) w w'.
Proof.
  unfold process_directory, Os.abspath. unfold bind at 1 2.
  unfold get_cwd, ret at 1.
  set (dir := cwd w ++ [d]).
  pose proof (listing_grows_refl dir) as Rr.
  pose proof (listing_grows_trans dir) as Rt.
  pose proof (listing_grows_trace dir) as Rc.
  match goal with |- ?m w = _ -> _ =>
    enough (Hr : respects (listing_grows dir) m) by exact (Hr w r w') end.
  clearbody dir.
  apply respects_bind; [exact Rt|now apply respects_get_launchbox_xml|].
  intros [lb_xml|]; [|now apply respects_ret].
  apply respects_bind; [exact Rt|now apply respects_print|]. intros _.
  apply respects_bind; [exact Rt| |].
  { apply respects_try; [exact Rt| |].
    - apply respects_bind; [exact Rt|now apply respects_ET_parse|].
      intros root. now apply respects_ret.
    - intros e. apply respects_bind; [exact Rt|now apply respects_print|].
      intros _. now apply respects_ret. }
  intros [root|]; [|now apply respects_ret].
  apply respects_bind; [exact Rt|now apply respects_listdir|]. intros names.
  apply respects_bind; [exact Rt| |].
  { apply respects_filter_m; [exact Rr|exact Rt|].
    intros x. now apply respects_isfile. }
  intros files.
  apply respects_bind; [exact Rt| |].
  { apply respects_process_files;
      first [ exact Rr | exact Rt | exact Rc
            | intros sub name src; apply (listing_grows_image_op dir sub name) ]. }
  intros [new_root count].
  apply respects_bind; [exact Rt| |now intros _; apply respects_print].
  intros w0 r0 w0'. unfold ET_write, Os.write_file, bind, emit, get_fs, set_fs, raise.
  cbn [fs cwd trace].
  destruct (FS.put (fs w0) (dir ++ ["gamelist.xml"]) _) as [n'|] eqn:Eput.
  - intros [= _ <-]. apply listing_put in Eput as (extra & Hl & Hx).
    exists extra. split; [exact Hl|]. intros k Hk. right. now apply Hx.
  - intros [= _ <-]. apply Rc.
Qed.

(** Filtering and sorting *)

Lemma insert_sorted_head x l :
  (forall y, In y l -> String.leb x y = true) ->
  Os.insert_sorted x l = x :: l.
Proof.
  destruct l as [|y r]; [reflexivity|]. intros H. simpl.
  now rewrite (H y (or_introl eq_refl)).
Qed.

Lemma filter_insert_sorted (p : string -> bool) x l :
  StronglySorted (fun a b => String.leb a b = true) l ->
  List.filter p (Os.insert_sorted x l)
  = if p x then Os.insert_sorted x (List.filter p l) else List.filter p l.
Proof.
  induction 1 as [|y r Hs IH Hall]; simpl.
  - now destruct (p x).
  - destruct (String.leb x y) eqn:E; simpl.
    + destruct (p x) eqn:Px; [|reflexivity].
      symmetry. apply insert_sorted_head. intros z Hz.
      destruct (p y) eqn:Py.
      * destruct Hz as [<-|Hz]; [exact E|].
        apply filter_In in Hz as [Hz _].
        rewrite List.Forall_forall in Hall. apply leb_trans with y; auto.
      * apply filter_In in Hz as [Hz _].
        rewrite List.Forall_forall in Hall. apply leb_trans with y; auto.
    + destruct (p y) eqn:Py; simpl.
      * rewrite IH. destruct (p x); [|reflexivity]. simpl. now rewrite E.
      * exact IH.
Qed.

Lemma filter_sorted (p : string -> bool) l :
  List.filter p (Os.sorted l) = Os.sorted (List.filter p l).
Proof.
  induction l as [|x l IH]; [reflexivity|]. simpl.
  rewrite filter_insert_sorted by apply sorted_sorted.
  rewrite IH. now destruct (p x).
Qed.

Lemma launchbox_xml_in_listing n dir :
  launchbox_xml_in n dir
  = List.find
      (fun f => negb (Str.endswith (Str.lower (path_str f)) "gamelist.xml"))
      (map (fun k => dir ++ [k])
         (List.filter (fun k => Str.endswith k ".xml" && negb (Str.startswith k "."))
            (listing n dir))).
Proof.
  unfold launchbox_xml_in, listing.
  now destruct (FS.lookup n dir) as [[c|es]|].
Qed.

Lemma plain_files_listing n dir :
  plain_files n dir
  = List.filter (fun k => is_file_at n (dir ++ [k])) (listing n dir).
Proof.
  unfold plain_files, listing. now destruct (FS.lookup n dir) as [[c|es]|].
Qed.

Lemma filter_filter {A : Type} (p q : A -> bool) l :
  List.filter p (List.filter q l) = List.filter (fun x => q x && p x) l.
Proof.
  induction l as [|x l IH]; [reflexivity|]. simpl.
  destruct (q x); simpl; [destruct (p x)|]; now rewrite IH.
Qed.

(** X16.  What a run writes is not taken as input by the next one:
    whatever the outcome of [process_directory], the metadata file that
    [get_launchbox_xml] picks in the folder and the sorted list of its
    ROM files are afterwards what they were before; gamelist.xml and
    images join the listing at its end and are neither metadata nor
    ROM. *)
Theorem outputs_not_taken_as_inputs d w r w' :
  process_directory d w = (r, w') ->
  let dir := cwd w ++ [d] in
  launchbox_xml_in (fs w') dir = launchbox_xml_in (fs w) dir
  /\ List.filter is_rom (Os.sorted (plain_files (fs w') dir))
     = List.filter is_rom (Os.sorted (plain_files (fs w) dir)).
Proof.
  intros Hrun dir.
  pose proof (listing_grows_process_directory d w r w' Hrun) as (extra & Hl & Hx).
  pose proof (process_directory_frame d w r w' Hrun) as (_ & K & _ & _).
  fold dir in Hl, K. split.
  - rewrite !launchbox_xml_in_listing, Hl, List.filter_app, List.map_app, find_app_first.
    destruct (List.find _ (map _ (List.filter _ (listing (fs w) dir)))) as [p|];
      [reflexivity|].
    match goal with |- ?f = None =>
      destruct f as [p|] eqn:Hf; [|reflexivity] end.
    exfalso. apply find_some in Hf as [Hin Ht].
    apply in_map_iff in Hin as (k & <- & Hin).
    apply filter_In in Hin as [Hin Hk].
    rewrite gamelist_test_on_name in Ht.
    destruct (Hx k Hin) as [->| ->]; discriminate.
  - rewrite !filter_sorted. f_equal.
    rewrite !plain_files_listing, Hl, !filter_filter, List.filter_app.
    assert (Hnil : List.filter (fun x => is_file_at (fs w') (dir ++ [x]) && is_rom x)
                     extra = []).
    { clear - Hx. induction extra as [|k extra IH]; [reflexivity|]. simpl.
      rewrite IH by (intros; apply Hx; now right).
      destruct (Hx k (or_introl eq_refl)) as [->| ->];
        now rewrite andb_false_r. }
    rewrite Hnil, app_nil_r. apply List.filter_ext. intros k.
    destruct (is_rom k) eqn:Hr; [|now rewrite !andb_false_r].
    rewrite !andb_true_r. unfold is_file_at.
    rewrite (K k []); [reflexivity| |]; intros ->; discriminate.
Qed.

(** ** The further properties on the sample collections *)

Lemma process_image_writes_only_dest_witness :
  let w' := snd (process_image_cover Sample.front_src Sample.cover_dest
                   Sample.start) in
  process_image_cover Sample.front_src Sample.cover_dest Sample.start
  = (Ok true, w')
  /\ only_wrote Sample.cover_dest Sample.start w'.
Proof.
  intros w'.
  assert (H : process_image_cover Sample.front_src Sample.cover_dest Sample.start
              = (Ok true, w')) by (vm_compute; reflexivity).
  split; [exact H|].
  exact (process_image_writes_only_dest _ _ _ _ _ (or_introl H)).
Defined.

Lemma process_image_unreadable_witness :
  picture_at (fs Sample.start) Edge.blob_src = None
  /\ exists e w',
       process_image_marquee Edge.blob_src Sample.marquee_dest Sample.start
       = (Ok false, w')
       /\ fs w' = fs Sample.start
       /\ trace w' =
          [EvRead Edge.blob_src;
           EvPrint (("Error processing marquee " +:+ path_str Edge.blob_src
                     +:+ ": " +:+ exn_str e) +:+ Str.newline)].
Proof.
  assert (H : picture_at (fs Sample.start) Edge.blob_src = None) by reflexivity.
  split; [exact H|].
  destruct (process_image_unreadable Edge.blob_src Sample.marquee_dest
              Sample.start H) as (e & _ & _ & Hm).
  exists e. eexists. split; [exact Hm|]. split; reflexivity.
Defined.

Lemma process_directory_writes_only_outputs_witness :
  let w' := snd (process_directory "Genesis" Sample.start) in
  process_directory "Genesis" Sample.start = (Ok tt, w')
  /\ folder_kept ["home"; "Genesis"] Sample.start w'.
Proof.
  intros w'.
  assert (H : process_directory "Genesis" Sample.start = (Ok tt, w'))
    by (vm_compute; reflexivity).
  split; [exact H|].
  exact (process_directory_writes_only_outputs _ _ _ _ H).
Defined.

Lemma main_touches_only_scanned_witness :
  let w' := snd (main Edge.script Edge.idle) in
  main Edge.script Edge.idle = (Ok tt, w')
  /\ cwd w' = ["home"]
  /\ FS.lookup (fs w') ["home"; "images"; "Metadata.xml"]
     = Some (File (XmlDoc Sample.metadata)).
Proof.
  intros w'.
  assert (H : main Edge.script Edge.idle = (Ok tt, w')) by (vm_compute; reflexivity).
  split; [exact H|].
  destruct (main_touches_only_scanned _ _ _ _ H) as (Hc & _ & Hk).
  split; [exact Hc|].
  exact (Hk "images" ["Metadata.xml"] eq_refl).
Defined.

Lemma gamelist_lists_roms_witness :
  let w' := snd (process_directory "Genesis" Sample.start) in
  exists entries,
    file_at (fs w') ["home"; "Genesis"; "gamelist.xml"]
    = Some (XmlDoc (Element "gameList" None entries))
    /\ map (ET.find "path") entries
       = [Some (Element "path" (Some "./Other.iso") []);
          Some (Element "path" (Some "./Sonic.bin") [])].
Proof.
  intros w'.
  assert (H1 : get_launchbox_xml (cwd Sample.start ++ ["Genesis"]) Sample.start
               = (Ok (Some ["home"; "Genesis"; "Metadata.xml"]),
                  World Sample.tree ["home"] [EvScan ["home"; "Genesis"]]))
    by reflexivity.
  assert (H2 : FS.lookup (fs Sample.start) ["home"; "Genesis"; "Metadata.xml"]
               = Some (File (XmlDoc Sample.metadata))) by reflexivity.
  assert (H3 : process_directory "Genesis" Sample.start = (Ok tt, w'))
    by (vm_compute; reflexivity).
  destruct (gamelist_lists_roms _ _ _ _ _ _ H1 H2 H3)
    as (entries & pre & Hfile & Hpaths & _).
  exists entries. split; [exact Hfile|exact Hpaths].
Defined.



Lemma sanitize_clean_idempotent_witness :
  sanitize_lb_title (Some "Sonic 3") = "Sonic 3"
  /\ sanitize_lb_title (Some (sanitize_lb_title (Some "Who? Me: 2/3")))
     = "Who_ Me_ 2_3".
Proof.
  split.
  - apply (proj2 (proj2 (sanitize_clean_idempotent (Some "Sonic 3")))
             "Sonic 3" eq_refl).
    intros i c Hi Hin.
    do 7 (destruct i as [|i];
          [injection Hi as <-; simpl in Hin; intuition discriminate|]).
    discriminate.
  - rewrite (proj1 (proj2 (sanitize_clean_idempotent (Some "Who? Me: 2/3")))).
    reflexivity.
Defined.


Lemma find_image_first_in_walk_order_witness :
  FS.lookup (fs Sample.start) (Sample.genesis_dir ++ ["Front"])
  = Some (Dir [("Sonic the Hedgehog-01.jpg", Sample.pic "JPEG" 1000 600 "RGB" None);
               ("Tall-01.jpg", Sample.pic "JPEG" 300 400 "RGB" (Some 6%Z))])
  /\ fst (find_image Sample.genesis_dir "Front" "Tall" "Tall" Sample.start)
     = Ok (Some Sample.tall_src)
  /\ exists before after,
       [Sample.front_src; Sample.tall_src] = before ++ Sample.tall_src :: after
       /\ forall q, In q before ->
            matches (candidates "Tall" "Tall") (List.last q EmptyString) = false.
Proof.
  assert (H1 : FS.lookup (fs Sample.start) (Sample.genesis_dir ++ ["Front"])
               = Some (Dir [("Sonic the Hedgehog-01.jpg",
                             Sample.pic "JPEG" 1000 600 "RGB" None);
                            ("Tall-01.jpg",
                             Sample.pic "JPEG" 300 400 "RGB" (Some 6%Z))]))
    by reflexivity.
  assert (H2 : fst (find_image Sample.genesis_dir "Front" "Tall" "Tall" Sample.start)
               = Ok (Some Sample.tall_src)) by reflexivity.
  split; [exact H1|]. split; [exact H2|].
  destruct (find_image_first_in_walk_order _ _ _ _ _ _ _ H1 H2)
    as (before & after & Hw & _ & Hb).
  exists before, after. split; [exact Hw|exact Hb].
Defined.

Lemma lookups_unaffected_by_outputs_witness :
  let w' := snd (process_directory "Genesis" Sample.start) in
  process_directory "Genesis" Sample.start = (Ok tt, w')
  /\ fst (find_image Sample.genesis_dir "Front" "Sonic the Hedgehog" "Sonic" w')
     = Ok (Some Sample.front_src).
Proof.
  intros w'.
  assert (H : process_directory "Genesis" Sample.start = (Ok tt, w'))
    by (vm_compute; reflexivity).
  split; [exact H|].
  assert (Hi : "Front" <> "images") by discriminate.
  assert (Hg : "Front" <> "gamelist.xml") by discriminate.
  rewrite (proj2 (lookups_unaffected_by_outputs Sample.genesis_dir "Front"
                    "Sonic the Hedgehog" "Sonic" Hi Hg)
             "Genesis" Sample.start (Ok tt) w' eq_refl H).
  reflexivity.
Defined.




Lemma unmatched_folder_only_gamelist_witness :
  let w' := snd (process_directory "Dreamcast" Unmatched.start) in
  process_directory "Dreamcast" Unmatched.start = (Ok tt, w')
  /\ fs w' =
     Dir [ ("home",
            Dir [ ("Dreamcast",
                   Dir [ ("db.xml", File (XmlDoc Sample.metadata));
                         ("Crazy.cdi", File Blob);
                         ("notes.txt", File Blob);
                         ("gamelist.xml",
                          File (XmlDoc (Element "gameList" None
                                          [minimal_entry "Crazy.cdi"]))) ]) ]) ].
Proof.
  intros w'.
  assert (H1 : get_launchbox_xml (cwd Unmatched.start ++ ["Dreamcast"])
                 Unmatched.start
               = (Ok (Some ["home"; "Dreamcast"; "db.xml"]),
                  World Unmatched.tree ["home"] [EvScan ["home"; "Dreamcast"]]))
    by reflexivity.
  assert (H2 : FS.lookup (fs Unmatched.start) ["home"; "Dreamcast"; "db.xml"]
               = Some (File (XmlDoc Sample.metadata))) by reflexivity.
  assert (H3 : forall f,
             In f (List.filter is_rom
                     (Os.sorted (plain_files (fs Unmatched.start)
                                   (cwd Unmatched.start ++ ["Dreamcast"])))) ->
             build_rom_map Sample.metadata !! f = None).
  { intros f [<-|[]]. reflexivity. }
  assert (H4 : process_directory "Dreamcast" Unmatched.start = (Ok tt, w'))
    by (vm_compute; reflexivity).
  split; [exact H4|].
  pose proof (unmatched_folder_only_gamelist _ _ _ _ _ _ H1 H2 H3 H4) as Hput.
  refine (eq_trans
            (f_equal (fun o => match o with Some n => n | None => Dir [] end)
               (eq_sym Hput)) _).
  reflexivity.
Defined.

Lemma outputs_not_taken_as_inputs_witness :
  let w' := snd (process_directory "Genesis" Sample.start) in
  process_directory "Genesis" Sample.start = (Ok tt, w')
  /\ launchbox_xml_in (fs w') ["home"; "Genesis"]
     = Some ["home"; "Genesis"; "Metadata.xml"]
  /\ List.filter is_rom (Os.sorted (plain_files (fs w') ["home"; "Genesis"]))
     = ["Other.iso"; "Sonic.bin"].
Proof.
  intros w'.
  assert (H : process_directory "Genesis" Sample.start = (Ok tt, w'))
    by (vm_compute; reflexivity).
  split; [exact H|].
  destruct (outputs_not_taken_as_inputs _ _ _ _ H) as (Hx & Hr).
  split; (etransitivity; [eassumption|vm_compute; reflexivity]).
Defined.
